(** * Messaging service of [home_works/web_socket.py]

    A shallow embedding of the connection manager, the sign-up endpoint and
    the websocket handler, followed by the properties of the specification
    that were checked against it.

    Conventions.
    - A Python [str] is a list of code points ([N]); [len] is [length] and
      [s[:k]] is [firstn k s].
    - A Python [dict] is an association list in insertion order whose keys
      are pairwise distinct ([dict_wf]).
    - Code that raises is a state transformer returning an [outcome]; the
      state reached when the exception is raised is kept, as in Python.
    - One handler step runs without interleaving with other handlers. *)

From Stdlib Require Import String Ascii List NArith Arith Bool Lia.
Import ListNotations.

Set Implicit Arguments.

(** ** Python strings *)

Definition char := N.
Definition str := list char.

Fixpoint str_eqb (a b : str) : bool :=
  match a, b with
  | [], [] => true
  | x :: a', y :: b' => N.eqb x y && str_eqb a' b'
  | _, _ => false
  end.

Fixpoint bytes_of (s : string) : list N :=
  match s with
  | EmptyString => []
  | String a r => N_of_ascii a :: bytes_of r
  end.

(** UTF-8 decoding of a source literal: [need] continuation bytes are still
    expected for the code point accumulated in [acc]. *)
Fixpoint utf8_go (need : nat) (acc : N) (bs : list N) : str :=
  match bs with
  | [] => []
  | b :: r =>
      match need with
      | O =>
          if N.ltb b 128 then b :: utf8_go 0 0 r
          else if N.ltb b 224 then utf8_go 1 (N.modulo b 32) r
          else if N.ltb b 240 then utf8_go 2 (N.modulo b 16) r
          else utf8_go 3 (N.modulo b 8) r
      | S O => (acc * 64 + N.modulo b 64)%N :: utf8_go 0 0 r
      | S n => utf8_go n (acc * 64 + N.modulo b 64)%N r
      end
  end.

(** [py "..."] is the Python string written as that literal. *)
Definition py (s : string) : str := utf8_go 0 0 (bytes_of s).

(** [needle in s] *)
Fixpoint startswith (s needle : str) : bool :=
  match needle, s with
  | [], _ => true
  | _ :: _, [] => false
  | x :: n', y :: s' => N.eqb x y && startswith s' n'
  end.

Fixpoint str_in (needle s : str) : bool :=
  startswith s needle ||
  match s with
  | [] => false
  | _ :: s' => str_in needle s'
  end.

(** [s.replace(c, rep)] for a one-character [c]. *)
Definition replace (c : char) (rep : str) (s : str) : str :=
  flat_map (fun x => if N.eqb x c then rep else [x]) s.

(** [s.rstrip(c)] for a one-character [c]. *)
Fixpoint lstrip (c : char) (s : str) : str :=
  match s with
  | [] => []
  | x :: r => if N.eqb x c then lstrip c r else s
  end.

Definition rstrip (c : char) (s : str) : str := rev (lstrip c (rev s)).

(** ** [html.escape] (standard library, [quote=True])

    [Lib/html/__init__.py]: five successive [replace] calls, the ampersand
    first. *)

Definition c_amp : char := 38%N.
Definition c_lt : char := 60%N.
Definition c_gt : char := 62%N.
Definition c_quot : char := 34%N.
Definition c_apos : char := 39%N.

Definition html_escape (s : str) : str :=
  let s := replace c_amp (py "&amp;") s in
  let s := replace c_lt (py "&lt;") s in
  let s := replace c_gt (py "&gt;") s in
  let s := replace c_quot (py "&quot;") s in
  let s := replace c_apos (py "&#x27;") s in
  s.

(** ** [secrets.token_urlsafe] (standard library)

    [token_urlsafe(n)] is
    [base64.urlsafe_b64encode(token_bytes(n)).rstrip(b'=').decode('ascii')].
    The operating system's randomness is the function [entropy], read at
    positions [0 .. n-1]. *)

Definition b64_char (i : N) : char :=
  if N.ltb i 26 then (65 + i)%N
  else if N.ltb i 52 then (97 + (i - 26))%N
  else if N.ltb i 62 then (48 + (i - 52))%N
  else if N.eqb i 62 then 45%N
  else 95%N.

Definition c_pad : char := 61%N.

Fixpoint urlsafe_b64encode (bs : list N) : str :=
  match bs with
  | [] => []
  | [a] =>
      [b64_char (a / 4); b64_char ((a mod 4) * 16); c_pad; c_pad]%N
  | [a; b] =>
      [b64_char (a / 4); b64_char ((a mod 4) * 16 + b / 16);
       b64_char ((b mod 16) * 4); c_pad]%N
  | a :: b :: c :: r =>
      [b64_char (a / 4); b64_char ((a mod 4) * 16 + b / 16);
       b64_char ((b mod 16) * 4 + c / 64); b64_char (c mod 64)]%N
      ++ urlsafe_b64encode r
  end.

Definition token_bytes (n : nat) (entropy : nat -> N) : list N :=
  map (fun i => N.modulo (entropy i) 256) (seq 0 n).

Definition token_urlsafe (n : nat) (entropy : nat -> N) : str :=
  rstrip c_pad (urlsafe_b64encode (token_bytes n entropy)).

(** ** Python dictionaries with string keys *)

Section Dict.
Variable V : Type.

Definition dict := list (str * V).

Definition keys (d : dict) : list str := map fst d.
Definition values (d : dict) : list V := map snd d.

(** [d.get(k)] *)
Fixpoint dict_get (d : dict) (k : str) : option V :=
  match d with
  | [] => None
  | (k', v) :: r => if str_eqb k' k then Some v else dict_get r k
  end.

(** [k in d] *)
Definition dict_contains (d : dict) (k : str) : bool :=
  match dict_get d k with Some _ => true | None => false end.

(** [d[k] = v]: an existing key keeps its position. *)
Fixpoint dict_set (d : dict) (k : str) (v : V) : dict :=
  match d with
  | [] => [(k, v)]
  | (k', v') :: r =>
      if str_eqb k' k then (k', v) :: r else (k', v') :: dict_set r k v
  end.

(** [d.pop(k, None)], the returned value dropped. *)
Fixpoint dict_pop (d : dict) (k : str) : dict :=
  match d with
  | [] => []
  | (k', v') :: r =>
      if str_eqb k' k then r else (k', v') :: dict_pop r k
  end.

Definition dict_wf (d : dict) : Prop := NoDup (keys d).
End Dict.

Arguments dict_get {V} d k.
Arguments dict_contains {V} d k.
Arguments dict_set {V} d k v.
Arguments dict_pop {V} d k.
Arguments dict_wf {V} d.
Arguments keys {V} d.
Arguments values {V} d.

(** ** Program state and exceptions *)

(** A [WebSocket] object, by identity. *)
Definition websocket := nat.

Inductive exn :=
| WebSocketDisconnect
| RuntimeError
| IntegrityError
| HTTPException (status_code : N).

Record World := mkWorld {
  (** [connection_manager.active_connections] *)
  active_connections : dict websocket;
  (** rows [(name, token)] of table [users], by increasing [id] *)
  users : list (str * str);
  (** text frames handed to a transport by [send_text], oldest first *)
  delivered : list (websocket * str);
  (** handshakes completed by [accept], oldest first *)
  accepted : list websocket;
  (** close frames sent by the server, with their code *)
  closed : list (websocket * N);
  (** transports on which [send_text] raises, with what it raises *)
  broken : list (websocket * exn)
}.

Definition set_active_connections (f : dict websocket -> dict websocket)
  (w : World) : World :=
  mkWorld (f (active_connections w)) (users w) (delivered w) (accepted w)
          (closed w) (broken w).

Definition set_users (f : list (str * str) -> list (str * str))
  (w : World) : World :=
  mkWorld (active_connections w) (f (users w)) (delivered w) (accepted w)
          (closed w) (broken w).

Definition log_delivered (ws : websocket) (text : str) (w : World) : World :=
  mkWorld (active_connections w) (users w) (delivered w ++ [(ws, text)])
          (accepted w) (closed w) (broken w).

Definition log_accepted (ws : websocket) (w : World) : World :=
  mkWorld (active_connections w) (users w) (delivered w) (accepted w ++ [ws])
          (closed w) (broken w).

Definition log_closed (ws : websocket) (code : N) (w : World) : World :=
  mkWorld (active_connections w) (users w) (delivered w) (accepted w)
          (closed w ++ [(ws, code)]) (broken w).

Inductive outcome (A : Type) :=
| Returns (a : A)
| Raises (e : exn).

Arguments Raises {A} e.

Definition M (A : Type) := World -> outcome A * World.

Definition ret {A} (a : A) : M A := fun w => (Returns a, w).

Definition raise {A} (e : exn) : M A := fun w => (Raises e, w).

Definition bind {A B} (m : M A) (k : A -> M B) : M B :=
  fun w =>
    match m w with
    | (Returns a, w') => k a w'
    | (Raises e, w') => (Raises e, w')
    end.

Definition gets {A} (f : World -> A) : M A := fun w => (Returns (f w), w).

Definition modify (f : World -> World) : M unit := fun w => (Returns tt, f w).

Declare Scope py_scope.
Delimit Scope py_scope with py.
Notation "x <- m ;; k" := (bind m (fun x => k))
  (at level 61, m at next level, right associativity) : py_scope.
Notation "m ;; k" := (bind m (fun _ => k))
  (at level 61, right associativity) : py_scope.
Local Open Scope py_scope.

(** [try: body  except WebSocketDisconnect: handler] *)
Definition try_except_disconnect (body handler : M unit) : M unit :=
  fun w =>
    match body w with
    | (Raises WebSocketDisconnect, w') => handler w'
    | r => r
    end.

(** [for x in l: body(x)] *)
Fixpoint for_each {A} (l : list A) (body : A -> M unit) : M unit :=
  match l with
  | [] => ret tt
  | x :: r => body x ;; for_each r body
  end.

(** ** Transport operations of a [WebSocket] *)

Fixpoint assoc_nat {A} (l : list (nat * A)) (k : nat) : option A :=
  match l with
  | [] => None
  | (k', a) :: r => if Nat.eqb k' k then Some a else assoc_nat r k
  end.

Definition accept (ws : websocket) : M unit := modify (log_accepted ws).

Definition close (ws : websocket) (code : N) : M unit :=
  modify (log_closed ws code).

Definition send_text (ws : websocket) (text : str) : M unit :=
  fun w =>
    match assoc_nat (broken w) ws with
    | Some e => (Raises e, w)
    | None => (Returns tt, log_delivered ws text w)
    end.

(** ** Table [users] *)

(** [SELECT token FROM users WHERE token = ?], [fetchone()] *)
Fixpoint select_token_where_token (rows : list (str * str)) (token : str)
  : option str :=
  match rows with
  | [] => None
  | (n, t) :: r =>
      if str_eqb t token then Some t else select_token_where_token r token
  end.

(** [SELECT token FROM users WHERE name = ?], [fetchone()] *)
Fixpoint select_token_where_name (rows : list (str * str)) (name : str)
  : option str :=
  match rows with
  | [] => None
  | (n, t) :: r =>
      if str_eqb n name then Some t else select_token_where_name r name
  end.

(** [SELECT 1 FROM users WHERE name = ?], [fetchone()] as a truth value *)
Definition select_1_where_name (rows : list (str * str)) (name : str) : bool :=
  existsb (fun row => str_eqb (fst row) name) rows.

(** [INSERT INTO users (name, token) VALUES (?, ?)]: column [token] is
    [UNIQUE], [name] is not. *)
Definition insert_user (name token : str) : M unit :=
  fun w =>
    if existsb (fun row => str_eqb (snd row) token) (users w)
    then (Raises IntegrityError, w)
    else (Returns tt, set_users (fun rows => rows ++ [(name, token)]) w).

Definition option_str_eqb (a : option str) (b : str) : bool :=
  match a with
  | Some s => str_eqb s b
  | None => false
  end.

Definition verify_access_token (token : str) : M (option str) :=
  gets (fun w => select_token_where_token (users w) token).

(** ** [WebSocketManager] *)

Definition truthy (s : str) : bool :=
  match s with [] => false | _ :: _ => true end.

Definition str_mem (k : str) (s : list str) : bool := existsb (str_eqb k) s.

(** [exclude and token in exclude] *)
Definition excluded (exclude : option (list str)) (token : str) : bool :=
  match exclude with
  | None => false
  | Some s => match s with [] => false | _ :: _ => str_mem token s end
  end.

Definition send_broadcast_message (message : str)
  (exclude : option (list str)) : M unit :=
  items <- gets active_connections ;;
  for_each items (fun item =>
    if excluded exclude (fst item) then ret tt
    else send_text (snd item) message).

Definition establish_connection (ws : websocket) (username access_token : str)
  : M unit :=
  accept ws ;;
  modify (set_active_connections (fun d => dict_set d access_token ws)) ;;
  send_broadcast_message (username ++ py " подключился к чату")
                         (Some [access_token]).

Definition terminate_connection (access_token : str) : M unit :=
  modify (set_active_connections (fun d => dict_pop d access_token)).

Definition send_private_message (message access_token : str) : M unit :=
  d <- gets active_connections ;;
  match dict_get d access_token with
  | Some ws => send_text ws message
  | None => ret tt
  end.

(** ** [POST /signup/{name}] *)

(** The body of [create_user_account]; it returns the ["token"] field of
    the JSON answer. *)
Definition create_user_account (name : str) (entropy : nat -> N) : M str :=
  let access_token := firstn 32 (token_urlsafe 32 entropy) in
  rows <- gets users ;;
  if select_1_where_name rows name
  then raise (HTTPException 400)
  else insert_user name access_token ;; ret access_token.

Record response := mkResponse {
  status : N;
  token_field : option str
}.

(** The route as the framework serves it: [Path(min_length=2,
    max_length=30)] is checked first and answers 422; an [HTTPException]
    answers with its code, any other exception with 500; a returned value
    with 200, the status the repository's own test asserts. *)
Definition post_signup (name : str) (entropy : nat -> N)
  : World -> response * World :=
  fun w =>
    if negb (Nat.leb 2 (length name) && Nat.leb (length name) 30)
    then (mkResponse 422 None, w)
    else
      match create_user_account name entropy w with
      | (Returns tok, w') => (mkResponse 200 (Some tok), w')
      | (Raises (HTTPException c), w') => (mkResponse c None, w')
      | (Raises _, w') => (mkResponse 500 None, w')
      end.

(** ** [/connect/{name}/{token}] *)

(** A decoded inbound frame: [to] is [None] when the key is absent or
    [null]; [message] is [None] when the key is absent. *)
Record frame := mkFrame {
  to : option str;
  message : option str
}.

Definition get_default (o : option str) (d : str) : str :=
  match o with Some s => s | None => d end.

(** [html.escape(data.get("message", "")[:500])] *)
Definition content_of (data : frame) : str :=
  html_escape (firstn 500 (get_default (message data) [])).

(** One iteration of the [while True] loop, after [receive_json]. *)
Definition handle_frame (name token : str) (data : frame) : M unit :=
  let recipient := to data in
  let content := content_of data in
  if negb (truthy content) then ret tt
  else
    match recipient with
    | Some ((_ :: _) as recipient) =>
        rows <- gets users ;;
        d <- gets active_connections ;;
        match select_token_where_name rows recipient with
        | Some row0 =>
            if dict_contains d row0
            then
              send_private_message (name ++ py " >>> " ++ content) row0 ;;
              send_private_message (py "Вы >>> " ++ content) token
            else
              send_private_message
                (py "Пользователь " ++ recipient ++ py " не в сети.") token
        | None =>
            send_private_message
              (py "Пользователь " ++ recipient ++ py " не в сети.") token
        end
    | _ =>
        send_broadcast_message (name ++ py " >>> " ++ content) (Some [token])
    end.

(** What [receive_json] yields: a decoded frame, or the peer's close. *)
Inductive event :=
| Frame (data : frame)
| Disconnect.

(** The [while True] loop over the frames that arrive; with no event left
    the handler stays blocked in [receive_json]. *)
Fixpoint receive_loop (name token : str) (inbound : list event) : M unit :=
  match inbound with
  | [] => ret tt
  | Frame data :: rest =>
      handle_frame name token data ;; receive_loop name token rest
  | Disconnect :: _ => raise WebSocketDisconnect
  end.

Definition handle_websocket_connection (ws : websocket) (name token : str)
  (inbound : list event) : M unit :=
  found <- verify_access_token token ;;
  if negb (option_str_eqb found token)
  then close ws 1008
  else
    establish_connection ws name token ;;
    try_except_disconnect
      (receive_loop name token inbound)
      (terminate_connection token ;;
       send_broadcast_message (name ++ py " покинул чат") None).

(** ** Vocabulary of the statements *)

(** The characters that [html.escape] rewrites. *)
Definition special (c : char) : bool :=
  N.eqb c c_amp || N.eqb c c_lt || N.eqb c c_gt || N.eqb c c_quot
  || N.eqb c c_apos.

(** The five replacements amount to one pass over the characters. *)
Definition escape_char (c : char) : str :=
  if N.eqb c c_amp then py "&amp;"
  else if N.eqb c c_lt then py "&lt;"
  else if N.eqb c c_gt then py "&gt;"
  else if N.eqb c c_quot then py "&quot;"
  else if N.eqb c c_apos then py "&#x27;"
  else [c].

(** The state after the frames [l] went out, in that order. *)
Definition add_delivered (l : list (websocket * str)) (w : World) : World :=
  mkWorld (active_connections w) (users w) (delivered w ++ l) (accepted w)
          (closed w) (broken w).

(** The body of the loop of [send_broadcast_message]. *)
Definition visit (message : str) (exclude : option (list str))
  (item : str * websocket) : M unit :=
  if excluded exclude (fst item) then ret tt
  else send_text (snd item) message.

(** The registry entries a broadcast addresses, in order. *)
Definition targets (exclude : option (list str)) (items : dict websocket)
  : dict websocket :=
  filter (fun item => negb (excluded exclude (fst item))) items.

(** The frames a broadcast of [message] puts on [items]. *)
Definition frames (message : str) (items : dict websocket)
  : list (websocket * str) :=
  map (fun item => (snd item, message)) items.

(** The pairing the specification speaks of: [token] validates for [name]
    when one account of the store carries both. *)
Definition validates_for (rows : list (str * str)) (name token : str) : bool :=
  existsb (fun row => str_eqb (fst row) name && str_eqb (snd row) token) rows.

(** Alice, bob and carol are connected; dave has an account only. *)
Definition three_users : World :=
  mkWorld [(py "T1", 1); (py "T2", 2); (py "T3", 3)]
          [(py "alice", py "T1"); (py "bob", py "T2"); (py "carol", py "T3");
           (py "dave", py "T4")]
          [] [] [] [].

(** Bob and carol are connected; alice has an account only. *)
Definition two_online : World :=
  mkWorld [(py "T2", 2); (py "T3", 3)]
          [(py "alice", py "T1"); (py "bob", py "T2"); (py "carol", py "T3")]
          [] [] [] [].

(** As [three_users], with bob's transport failing on send. *)
Definition one_broken : World :=
  mkWorld [(py "T1", 1); (py "T2", 2); (py "T3", 3)]
          [(py "alice", py "T1"); (py "bob", py "T2"); (py "carol", py "T3")]
          [] [] [] [(2, RuntimeError)].

(** Alice alone is connected. *)
Definition alice_online : World :=
  mkWorld [(py "T1", 1)] [(py "alice", py "T1")] [] [] [] [].

(** ** Vocabulary of the further properties *)

(** [only_sends m]: whatever its outcome, [m] leaves the registry, the
    account store and the transports' states alone and only hands frames to
    transports. *)
Definition only_sends {A} (m : M A) : Prop :=
  forall w, exists l, snd (m w) = add_delivered l w.




(** The characters of the URL-safe base64 alphabet: letters, digits, [-]
    and [_]. *)
Definition urlsafe_char (c : char) : bool :=
  (N.leb 65 c && N.leb c 90) || (N.leb 97 c && N.leb c 122)
  || (N.leb 48 c && N.leb c 57) || N.eqb c 45 || N.eqb c 95.


(** * [home_works/file_upload.py] *)

From Stdlib Require DecimalString.

Module FileUpload.

(** [s.split(sep)] for a one-character [sep]: the pieces between the
    separators, in order; never the empty list. *)
Fixpoint split (sep : char) (s : str) : list str :=
  match s with
  | [] => [[]]
  | c :: r =>
      if N.eqb c sep then [] :: split sep r
      else
        match split sep r with
        | piece :: pieces => (c :: piece) :: pieces
        | [] => [[c]]
        end
  end.

(** [sep.join(pieces)] *)
Fixpoint join (sep : char) (pieces : list str) : str :=
  match pieces with
  | [] => []
  | [piece] => piece
  | piece :: rest => piece ++ sep :: join sep rest
  end.

(** [pieces[-1]] of a non-empty list *)
Definition last_piece (pieces : list str) : str := last pieces [].

Definition c_dot : char := 46%N.

Definition ALLOWED_IMAGE_TYPES : list str :=
  [py "image/jpeg"; py "image/png"].

(** [1024 * 1024 * 10]; a global that the module's tests reassign, hence an
    argument of the endpoint below. *)
Definition MAX_IMAGE_SIZE : N := (1024 * 1024 * 10)%N.

(** What the endpoints read of an [UploadFile]. *)
Record UploadFile := mkUploadFile {
  filename : str;
  content_type : str;
  size : N;
  content : list N
}.

(** A scheduled call of [process_image]. *)
Record process_image_call := mkCall {
  image_data : list N;
  format_type : str;
  dimensions : Z * Z
}.

Inductive answer :=
| Ok (status : N) (filename : str) (size : N)
| HTTPError (status : N) (detail : str).

Definition status_of (a : answer) : N :=
  match a with
  | Ok status _ _ => status
  | HTTPError status _ => status
  end.

(** [str(n)] of a non-negative integer *)
Definition str_of_N (n : N) : str :=
  py (DecimalString.NilZero.string_of_uint (N.to_uint n)).

(** [validate_file_upload]: the answer and the background tasks after the
    call, given the tasks scheduled before it. *)
Definition validate_file_upload (max_image_size : N)
  (background_tasks : list process_image_call) (uploaded_file : UploadFile)
  (target_width target_height : Z)
  : answer * list process_image_call :=
  if N.ltb max_image_size (size uploaded_file)
  then
    (HTTPError 413
       (py "File is too large. File size is "
        ++ str_of_N (size uploaded_file) ++ py " bytes."),
     background_tasks)
  else if negb (str_mem (content_type uploaded_file) ALLOWED_IMAGE_TYPES)
  then
    (HTTPError 400
       (py "Unsupportable file format. " ++ content_type uploaded_file
        ++ py " was received."),
     background_tasks)
  else
    (Ok 200 (filename uploaded_file) (size uploaded_file),
     background_tasks
     ++ [mkCall (content uploaded_file)
                (last_piece (split c_dot (filename uploaded_file)))
                (target_width, target_height)]).

(** The files the module writes, by name. [open(name, "wb")] empties the
    file; [write] appends. *)
Definition files := list (str * list N).

Fixpoint write_file (fs : files) (name : str) (data : list N) : files :=
  match fs with
  | [] => [(name, data)]
  | (n, d) :: r =>
      if str_eqb n name then (n, data) :: r
      else (n, d) :: write_file r name data
  end.

Fixpoint read_file (fs : files) (name : str) : option (list N) :=
  match fs with
  | [] => None
  | (n, d) :: r => if str_eqb n name then Some d else read_file r name
  end.

Inductive bytes_answer :=
| FileSize (n : nat)
| TypeError.

(** [upload_bytes_file]: the parameter is [None] when the request carries
    no file; the file is opened for writing before [fp.write] is called. *)
Definition upload_bytes_file (fs : files) (uploaded_file : option (list N))
  : bytes_answer * files :=
  let fs := write_file fs (py "picture_from_bytes.jpg") [] in
  match uploaded_file with
  | None => (TypeError, fs)
  | Some data =>
      (FileSize (length data),
       write_file fs (py "picture_from_bytes.jpg") data)
  end.

End FileUpload.


(** * [home_works/json_answer.py]: events, accounts and attendance *)

From Stdlib Require Import ZArith.

Module JsonAnswer.

(** A [datetime.date]. *)
Record date := mkDate {
  year : N;
  month : N;
  day : N
}.

(** [a < b] on dates *)
Definition date_ltb (a b : date) : bool :=
  N.ltb (year a) (year b)
  || (N.eqb (year a) (year b)
      && (N.ltb (month a) (month b)
          || (N.eqb (month a) (month b) && N.ltb (day a) (day b)))).

Record EventCreation := mkEvent {
  title : str;
  date_of : date;
  location : str
}.

(** A row of table [users]: the columns the endpoints read. *)
Record UserSignup := mkUser {
  first_name : str;
  last_name : str;
  email : str;
  password : str;
  phone : str
}.

(** The tables, rows by increasing [id]. Column [id] is [INTEGER PRIMARY
    KEY AUTOINCREMENT]: a new row takes the successor of the largest id
    the table ever held, kept in [events_seq] and [users_seq]. The [date]
    column holds [date.isoformat()], which [EventDetails] reads back as the
    date; the row keeps the date itself. *)
Record Db := mkDb {
  events : list (Z * EventCreation);
  events_seq : Z;
  users : list (Z * UserSignup);
  users_seq : Z;
  rsvps : list (Z * Z)
}.

Inductive reply :=
| Event (status : N) (id : Z) (data : EventCreation)
| Events (status : N) (rows : list (Z * EventCreation))
| NoContent (status : N)
| Status (status : N) (text : str)
| HTTPException (status : N) (detail : str)
| Unhandled (status : N) (exception : str).

Definition status_of (r : reply) : N :=
  match r with
  | Event s _ _ | Events s _ | NoContent s | Status s _
  | HTTPException s _ | Unhandled s _ => s
  end.

(** The row of [events] whose [id] is [event_id]. *)
Fixpoint find_event (rows : list (Z * EventCreation)) (event_id : Z)
  : option EventCreation :=
  match rows with
  | [] => None
  | (i, e) :: r => if Z.eqb i event_id then Some e else find_event r event_id
  end.

(** The integers SQLite binds as a parameter: 64 bits, signed. *)
Definition in_int64 (i : Z) : bool :=
  Z.leb (- 2 ^ 63) i && Z.leb i (2 ^ 63 - 1).

Inductive selected :=
| Row (event : EventCreation)
| NoRow
| OverflowError.

(** [SELECT * FROM events WHERE id = ?] with [event_id] bound, then
    [fetchone()]. The path parameter is a Python [int] of any size, and
    binding one outside 64 bits raises [OverflowError] before the statement
    runs. An id that a row carries was produced by SQLite and is found;
    an id that no row carries is either looked up in vain or, outside 64
    bits, not even bound. *)
Definition select_event (rows : list (Z * EventCreation)) (event_id : Z)
  : selected :=
  match find_event rows event_id with
  | Some event => Row event
  | None => if in_int64 event_id then NoRow else OverflowError
  end.

(** What the framework answers when a route raises something that is not
    an [HTTPException]. *)
Definition overflow : reply := Unhandled 500 (py "OverflowError").

(** [UPDATE events SET ... WHERE id = ?] *)
Definition update_event (rows : list (Z * EventCreation)) (event_id : Z)
  (f : EventCreation -> EventCreation) : list (Z * EventCreation) :=
  map (fun row => if Z.eqb (fst row) event_id then (fst row, f (snd row))
                  else row) rows.

(** [DELETE FROM events WHERE id = ?] *)
Definition delete_event (rows : list (Z * EventCreation)) (event_id : Z)
  : list (Z * EventCreation) :=
  filter (fun row => negb (Z.eqb (fst row) event_id)) rows.

Definition set_events (rows : list (Z * EventCreation)) (db : Db) : Db :=
  mkDb rows (events_seq db) (users db) (users_seq db) (rsvps db).

Definition not_found : str := py "Мероприятие не обнаружено.".

Definition add_new_event (data : EventCreation) (db : Db) : reply * Db :=
  let new_id := (events_seq db + 1)%Z in
  (Event 201 new_id data,
   mkDb (events db ++ [(new_id, data)]) new_id (users db) (users_seq db)
        (rsvps db)).

Definition fetch_all_events (db : Db) : reply * Db :=
  match events db with
  | [] => (NoContent 204, db)
  | rows => (Events 200 rows, db)
  end.

Definition fetch_single_event (event_id : Z) (db : Db) : reply * Db :=
  match select_event (events db) event_id with
  | OverflowError => (overflow, db)
  | NoRow => (HTTPException 404 not_found, db)
  | Row row => (Event 200 event_id row, db)
  end.

Definition modify_event (event_id : Z) (data : EventCreation) (db : Db)
  : reply * Db :=
  match select_event (events db) event_id with
  | OverflowError => (overflow, db)
  | NoRow => (HTTPException 404 not_found, db)
  | Row _ =>
      (Event 200 event_id data,
       set_events (update_event (events db) event_id (fun _ => data)) db)
  end.

Definition remove_event (event_id : Z) (db : Db) : reply * Db :=
  match select_event (events db) event_id with
  | OverflowError => (overflow, db)
  | NoRow => (HTTPException 404 not_found, db)
  | Row _ =>
      (Status 200 (py "удалено успешно"),
       set_events (delete_event (events db) event_id) db)
  end.

(** [today] is [date.today()] at the time of the call. *)
Definition change_event_date (today : date) (event_id : Z) (new_date : date)
  (db : Db) : reply * Db :=
  if date_ltb new_date today
  then (HTTPException 400 (py "Дата не может быть в прошедшем времени."), db)
  else
    match select_event (events db) event_id with
    | OverflowError => (overflow, db)
    | NoRow => (HTTPException 404 not_found, db)
    | Row event =>
        (Event 200 event_id
           (mkEvent (title event) new_date (location event)),
         set_events
           (update_event (events db) event_id
              (fun e => mkEvent (title e) new_date (location e))) db)
    end.

(** [SELECT id FROM users WHERE email = ?], [fetchone()] *)
Fixpoint select_user_id (rows : list (Z * UserSignup)) (mail : str)
  : option Z :=
  match rows with
  | [] => None
  | (i, u) :: r =>
      if str_eqb (email u) mail then Some i else select_user_id r mail
  end.

(** [/register/]: column [email] is [UNIQUE]; the [IntegrityError] of the
    insert becomes the answer 400. *)
Definition create_user_account (data : UserSignup) (db : Db) : reply * Db :=
  match select_user_id (users db) (email data) with
  | Some _ =>
      (HTTPException 400 (py "Данный email уже используется."), db)
  | None =>
      let new_id := (users_seq db + 1)%Z in
      (Status 201 (py "успешно"),
       mkDb (events db) (events_seq db) (users db ++ [(new_id, data)])
            new_id (rsvps db))
  end.

Definition has_rsvp (rows : list (Z * Z)) (user_id event_id : Z) : bool :=
  existsb (fun row => Z.eqb (fst row) user_id && Z.eqb (snd row) event_id)
          rows.

(** [/events/{event_id}/rsvp]: the pair [(user_id, event_id)] is the
    primary key of [rsvps]. *)
Definition confirm_attendance (event_id : Z) (mail : str) (db : Db)
  : reply * Db :=
  match select_user_id (users db) mail with
  | None => (HTTPException 404 (py "Участник не найден."), db)
  | Some user_id =>
      match select_event (events db) event_id with
      | OverflowError => (overflow, db)
      | NoRow => (HTTPException 404 not_found, db)
      | Row _ =>
          if has_rsvp (rsvps db) user_id event_id
          then
            (HTTPException 400
               (py "Вы уже подтвердили участие в данном мероприятии."),
             db)
          else
            (Status 201 (py "Участие подтверждено успешно"),
             mkDb (events db) (events_seq db) (users db) (users_seq db)
                  (rsvps db ++ [(user_id, event_id)]))
      end
  end.

(** The ids in a table are pairwise distinct and none exceeds the
    sequence. *)
Definition ids_ok {A} (rows : list (Z * A)) (seq : Z) : Prop :=
  NoDup (map fst rows) /\ forall i, In i (map fst rows) -> (i <= seq)%Z.

End JsonAnswer.

(** Two events, the id 2 having been deleted, and one account. *)
Definition two_events : JsonAnswer.Db :=
  JsonAnswer.mkDb
    [(1%Z, JsonAnswer.mkEvent (py "Readers' evening")
             (JsonAnswer.mkDate 2030 5 17) (py "Hall"));
     (3%Z, JsonAnswer.mkEvent (py "Book fair")
             (JsonAnswer.mkDate 2030 9 1) (py "Yard"))]
    3%Z
    [(1%Z, JsonAnswer.mkUser (py "Ann") (py "Lee") (py "ann@example.com")
             (py "Secret#123") (py "+15551234567"))]
    1%Z
    [].

(** * Properties *)

(** ** Strings *)

Lemma str_eqb_refl (a : str) : str_eqb a a = true.
Proof.
  induction a as [|x a IH]; simpl; [reflexivity|].
  now rewrite N.eqb_refl, IH.
Qed.

Lemma str_eqb_eq (a b : str) : str_eqb a b = true <-> a = b.
Proof.
  split; [|intros ->; apply str_eqb_refl].
  revert b; induction a as [|x a IH]; intros [|y b]; simpl; try discriminate.
  - reflexivity.
  - intros H. apply andb_true_iff in H as [Hx Hr].
    apply N.eqb_eq in Hx. apply IH in Hr. now subst.
Qed.

Lemma str_eqb_neq (a b : str) : str_eqb a b = false <-> a <> b.
Proof.
  split.
  - intros H E. apply str_eqb_eq in E. congruence.
  - intros H. destruct (str_eqb a b) eqn:E; [|reflexivity].
    apply str_eqb_eq in E. contradiction.
Qed.

Lemma str_eqb_sym (a b : str) : str_eqb a b = str_eqb b a.
Proof.
  destruct (str_eqb b a) eqn:E.
  - apply str_eqb_eq in E. subst. apply str_eqb_refl.
  - apply str_eqb_neq. apply str_eqb_neq in E. congruence.
Qed.

Lemma truthy_nonempty (s : str) : truthy s = true <-> s <> [].
Proof. destruct s; simpl; split; congruence. Qed.

(** ** Escaping *)

Lemma replace_app c rep a b :
  replace c rep (a ++ b) = replace c rep a ++ replace c rep b.
Proof. unfold replace. apply flat_map_app. Qed.

Lemma html_escape_app a b :
  html_escape (a ++ b) = html_escape a ++ html_escape b.
Proof. unfold html_escape. now rewrite !replace_app. Qed.

Lemma html_escape_nil : html_escape [] = [].
Proof. reflexivity. Qed.

Lemma html_escape_one (c : char) : html_escape [c] = escape_char c.
Proof.
  unfold html_escape, escape_char, replace at 5. simpl flat_map.
  destruct (N.eqb c c_amp) eqn:E1; [reflexivity|].
  rewrite app_nil_r. unfold replace at 4. simpl flat_map.
  destruct (N.eqb c c_lt) eqn:E2; [reflexivity|].
  rewrite app_nil_r. unfold replace at 3. simpl flat_map.
  destruct (N.eqb c c_gt) eqn:E3; [reflexivity|].
  rewrite app_nil_r. unfold replace at 2. simpl flat_map.
  destruct (N.eqb c c_quot) eqn:E4; [reflexivity|].
  rewrite app_nil_r. unfold replace. simpl flat_map.
  destruct (N.eqb c c_apos) eqn:E5; reflexivity.
Qed.

Lemma html_escape_cons (c : char) (s : str) :
  html_escape (c :: s) = escape_char c ++ html_escape s.
Proof.
  change (c :: s) with ([c] ++ s).
  now rewrite html_escape_app, html_escape_one.
Qed.

Lemma html_escape_flat_map (s : str) : html_escape s = flat_map escape_char s.
Proof.
  induction s as [|c s IH]; [reflexivity|].
  rewrite html_escape_cons, IH. reflexivity.
Qed.

Lemma escape_char_no_markup (c x : char) :
  In x (escape_char c) -> x <> c_lt /\ x <> c_gt.
Proof.
  unfold escape_char.
  destruct (N.eqb c c_amp) eqn:E1;
    [|destruct (N.eqb c c_lt) eqn:E2;
      [|destruct (N.eqb c c_gt) eqn:E3;
        [|destruct (N.eqb c c_quot) eqn:E4;
          [|destruct (N.eqb c c_apos) eqn:E5]]]];
    cbn; intros H;
    repeat (destruct H as [<-|H]; [split; discriminate|]);
    try contradiction.
  destruct H as [<-|[]].
  apply N.eqb_neq in E2, E3. split; assumption.
Qed.

(** No [<] and no [>] survives [html.escape]. *)
Lemma html_escape_no_markup (s : str) (x : char) :
  In x (html_escape s) -> x <> c_lt /\ x <> c_gt.
Proof.
  rewrite html_escape_flat_map. intros H.
  apply in_flat_map in H as (c & _ & Hx).
  eapply escape_char_no_markup; eassumption.
Qed.

Lemma escape_char_plain (c : char) : special c = false -> escape_char c = [c].
Proof.
  unfold special, escape_char. intros H.
  repeat (apply orb_false_iff in H as [H ?]).
  now rewrite H, H0, H1, H2, H3.
Qed.

Lemma escape_char_length (c : char) : 1 <= length (escape_char c).
Proof.
  unfold escape_char.
  repeat match goal with |- context [if ?b then _ else _] => destruct b end;
    cbn; lia.
Qed.

Lemma html_escape_length (s : str) : length s <= length (html_escape s).
Proof.
  induction s as [|c s IH]; [simpl; lia|].
  rewrite html_escape_cons, length_app. simpl.
  pose proof (escape_char_length c). lia.
Qed.

Lemma html_escape_plain (s : str) :
  forallb (fun c => negb (special c)) s = true -> html_escape s = s.
Proof.
  induction s as [|c s IH]; [reflexivity|].
  simpl. intros H. apply andb_true_iff in H as [Hc Hs].
  rewrite html_escape_cons, IH by assumption.
  rewrite escape_char_plain; [reflexivity|].
  now apply negb_true_iff.
Qed.

Lemma html_escape_nonempty (s : str) : s <> [] -> html_escape s <> [].
Proof.
  intros H E. pose proof (html_escape_length s) as L. rewrite E in L.
  destruct s; [congruence|simpl in L; lia].
Qed.

Lemma startswith_head (x : char) (n s : str) :
  startswith s (x :: n) = true -> exists s', s = x :: s'.
Proof.
  destruct s as [|y s']; simpl; [discriminate|].
  intros H. apply andb_true_iff in H as [H _].
  apply N.eqb_eq in H. subst. now exists s'.
Qed.

(** A string that contains [needle] contains the first character of it. *)
Lemma str_in_head (x : char) (n s : str) :
  str_in (x :: n) s = true -> In x s.
Proof.
  induction s as [|y s IH]; intros H.
  - simpl in H. discriminate.
  - cbn [str_in] in H. apply orb_true_iff in H as [H|H].
    + apply startswith_head in H as (s' & E). inversion E. now left.
    + right. now apply IH.
Qed.

(** ** Dictionaries *)

Section DictFacts.
Variable V : Type.
Implicit Types (d : dict V) (k : str) (v : V).

Lemma dict_get_set_same d k v : dict_get (dict_set d k v) k = Some v.
Proof.
  induction d as [|[k' v'] d IH]; simpl.
  - now rewrite str_eqb_refl.
  - destruct (str_eqb k' k) eqn:E; simpl; now rewrite E.
Qed.

Lemma dict_get_set_other d k k' v :
  k' <> k -> dict_get (dict_set d k v) k' = dict_get d k'.
Proof.
  intros Hne. induction d as [|[k0 v0] d IH]; simpl.
  - assert (str_eqb k k' = false) as -> by (apply str_eqb_neq; congruence).
    reflexivity.
  - destruct (str_eqb k0 k) eqn:E; simpl.
    + apply str_eqb_eq in E. subst k0.
      assert (str_eqb k k' = false) as -> by (apply str_eqb_neq; congruence).
      reflexivity.
    + destruct (str_eqb k0 k'); [reflexivity|apply IH].
Qed.

Lemma dict_get_None d k : dict_get d k = None <-> ~ In k (keys d).
Proof.
  induction d as [|[k' v'] d IH]; simpl.
  - tauto.
  - destruct (str_eqb k' k) eqn:E.
    + apply str_eqb_eq in E. split; [discriminate|]. intros H. tauto.
    + apply str_eqb_neq in E. rewrite IH. tauto.
Qed.

Lemma dict_get_In d k v : dict_get d k = Some v -> In (k, v) d.
Proof.
  induction d as [|[k' v'] d IH]; simpl; [discriminate|].
  destruct (str_eqb k' k) eqn:E.
  - apply str_eqb_eq in E. intros [= ->]. subst. now left.
  - intros H. right. now apply IH.
Qed.

Lemma keys_set_present d k v :
  In k (keys d) -> keys (dict_set d k v) = keys d.
Proof.
  induction d as [|[k' v'] d IH]; simpl; [tauto|].
  intros H. destruct (str_eqb k' k) eqn:E; [reflexivity|].
  simpl. f_equal. apply IH. destruct H as [H|H]; [|assumption].
  apply str_eqb_neq in E. contradiction.
Qed.

Lemma keys_set_absent d k v :
  ~ In k (keys d) -> keys (dict_set d k v) = keys d ++ [k].
Proof.
  induction d as [|[k' v'] d IH]; simpl; [reflexivity|].
  intros H. destruct (str_eqb k' k) eqn:E.
  - apply str_eqb_eq in E. tauto.
  - simpl. f_equal. apply IH. tauto.
Qed.

(** Assignment keeps the keys pairwise distinct. *)
Lemma dict_wf_set d k v : dict_wf d -> dict_wf (dict_set d k v).
Proof.
  unfold dict_wf. intros H.
  destruct (in_dec (list_eq_dec N.eq_dec) k (keys d)) as [Hin|Hout].
  - now rewrite keys_set_present.
  - rewrite keys_set_absent by assumption.
    apply NoDup_app; [assumption|repeat constructor; simpl; tauto|].
    intros x Hx [<-|[]]. contradiction.
Qed.

Lemma dict_pop_absent d k : dict_get d k = None -> dict_pop d k = d.
Proof.
  induction d as [|[k' v'] d IH]; simpl; [reflexivity|].
  destruct (str_eqb k' k); [discriminate|].
  intros H. now rewrite IH.
Qed.

Lemma keys_pop_incl d k x : In x (keys (dict_pop d k)) -> In x (keys d).
Proof.
  induction d as [|[k' v'] d IH]; simpl; [tauto|].
  destruct (str_eqb k' k); simpl; intuition.
Qed.

Lemma dict_wf_pop d k : dict_wf d -> dict_wf (dict_pop d k).
Proof.
  unfold dict_wf. induction d as [|[k' v'] d IH]; simpl; intros H.
  - constructor.
  - inversion H as [|? ? Hnin Hnd]; subst.
    destruct (str_eqb k' k); [assumption|].
    simpl. constructor; [|now apply IH].
    intros Hin. apply Hnin. eapply keys_pop_incl; eassumption.
Qed.

Lemma dict_get_pop_same d k : dict_wf d -> dict_get (dict_pop d k) k = None.
Proof.
  unfold dict_wf. induction d as [|[k' v'] d IH]; simpl; intros H.
  - reflexivity.
  - inversion H as [|? ? Hnin Hnd]; subst.
    destruct (str_eqb k' k) eqn:E.
    + apply str_eqb_eq in E. subst. now apply dict_get_None.
    + simpl. rewrite E. now apply IH.
Qed.

(** Skipping one key while iterating visits what [pop] leaves. *)
Lemma filter_other_keys d k :
  dict_wf d ->
  filter (fun item => negb (str_eqb (fst item) k)) d = dict_pop d k.
Proof.
  unfold dict_wf. induction d as [|[k' v'] d IH]; simpl; intros H.
  - reflexivity.
  - inversion H as [|? ? Hnin Hnd]; subst.
    destruct (str_eqb k' k) eqn:E; simpl.
    + apply str_eqb_eq in E. subst.
      rewrite IH by assumption. apply dict_pop_absent.
      now apply dict_get_None.
    + now rewrite IH.
Qed.

Lemma length_pop_present d k v :
  dict_get d k = Some v -> S (length (dict_pop d k)) = length d.
Proof.
  induction d as [|[k' v'] d IH]; simpl; [discriminate|].
  destruct (str_eqb k' k); [reflexivity|].
  intros H. simpl. f_equal. now apply IH.
Qed.

Lemma values_pop_incl d k x : In x (values (dict_pop d k)) -> In x (values d).
Proof.
  induction d as [|[k' v'] d IH]; simpl; [tauto|].
  destruct (str_eqb k' k); simpl; intuition.
Qed.

Lemma values_pop_other d k v x :
  dict_get d k = Some v -> In x (values d) -> x <> v ->
  In x (values (dict_pop d k)).
Proof.
  induction d as [|[k' v'] d IH]; simpl; [discriminate|].
  destruct (str_eqb k' k).
  - intros [= ->] [H|H] Hne; [congruence|assumption].
  - intros Hg [H|H] Hne; simpl; [now left|right; now apply IH].
Qed.

Lemma values_pop_self d k v :
  NoDup (values d) -> dict_get d k = Some v ->
  ~ In v (values (dict_pop d k)).
Proof.
  induction d as [|[k' v'] d IH]; simpl; [discriminate|].
  intros H. inversion H as [|? ? Hnin Hnd]; subst.
  destruct (str_eqb k' k).
  - intros [= ->]. assumption.
  - simpl. intros Hg [H1|H1].
    + subst v'. apply Hnin. apply dict_get_In in Hg.
      apply (in_map snd) in Hg. exact Hg.
    + now apply (IH Hnd Hg).
Qed.
End DictFacts.

(** ** Sending *)

Lemma add_delivered_nil w : add_delivered [] w = w.
Proof. destruct w. unfold add_delivered. simpl. now rewrite app_nil_r. Qed.

Lemma add_delivered_app l1 l2 w :
  add_delivered l2 (add_delivered l1 w) = add_delivered (l1 ++ l2) w.
Proof. unfold add_delivered. simpl. now rewrite app_assoc. Qed.

Lemma send_text_ok ws text w :
  assoc_nat (broken w) ws = None ->
  send_text ws text w = (Returns tt, add_delivered [(ws, text)] w).
Proof. unfold send_text. now intros ->. Qed.

Lemma send_text_fail ws text w e :
  assoc_nat (broken w) ws = Some e ->
  send_text ws text w = (Raises e, w).
Proof. unfold send_text. now intros ->. Qed.

Lemma send_broadcast_message_unfold message exclude w :
  send_broadcast_message message exclude w
  = for_each (active_connections w) (visit message exclude) w.
Proof. reflexivity. Qed.

(** With every addressed transport healthy the loop serves all of them. *)
Lemma for_each_visit_ok message exclude items :
  forall w,
    (forall item, In item (targets exclude items) ->
                  assoc_nat (broken w) (snd item) = None) ->
    for_each items (visit message exclude) w
    = (Returns tt, add_delivered (frames message (targets exclude items)) w).
Proof.
  induction items as [|[k v] items IH]; intros w Hok.
  - simpl. unfold ret. now rewrite add_delivered_nil.
  - cbn [for_each]. unfold bind, visit at 1, targets. cbn [fst snd filter].
    destruct (excluded exclude k) eqn:E; cbn [negb].
    + unfold ret. apply IH. intros item Hin. apply Hok.
      unfold targets. cbn [filter fst]. now rewrite E.
    + rewrite send_text_ok.
      2:{ apply (Hok (k, v)). unfold targets. cbn [filter fst].
          rewrite E. now left. }
      rewrite IH.
      2:{ intros item Hin. apply (Hok item). unfold targets.
          cbn [filter fst]. rewrite E. now right. }
      now rewrite add_delivered_app.
Qed.

(** The first failing send ends the loop: what precedes it was served,
    what follows it is not visited. *)
Lemma for_each_visit_fail message exclude pre k v post e :
  forall w,
    (forall item, In item (targets exclude pre) ->
                  assoc_nat (broken w) (snd item) = None) ->
    excluded exclude k = false ->
    assoc_nat (broken w) v = Some e ->
    for_each (pre ++ (k, v) :: post) (visit message exclude) w
    = (Raises e, add_delivered (frames message (targets exclude pre)) w).
Proof.
  induction pre as [|[k0 v0] pre IH]; intros w Hok Hk Hv.
  - cbn [app for_each]. unfold bind, visit at 1. cbn [fst snd].
    rewrite Hk, (send_text_fail _ _ _ Hv).
    unfold targets, frames. simpl. now rewrite add_delivered_nil.
  - cbn [app for_each]. unfold bind, visit at 1, targets. cbn [fst snd filter].
    destruct (excluded exclude k0) eqn:E; cbn [negb].
    + unfold ret. apply IH; try assumption.
      intros item Hin. apply Hok. unfold targets. cbn [filter fst].
      now rewrite E.
    + rewrite send_text_ok.
      2:{ apply (Hok (k0, v0)). unfold targets. cbn [filter fst].
          rewrite E. now left. }
      rewrite IH; try assumption.
      2:{ intros item Hin. apply (Hok item). unfold targets.
          cbn [filter fst]. rewrite E. now right. }
      now rewrite add_delivered_app.
Qed.

(** Whatever its outcome, the loop only hands frames to transports. *)
Lemma for_each_visit_frame message exclude items :
  forall w, exists l,
    snd (for_each items (visit message exclude) w) = add_delivered l w.
Proof.
  induction items as [|[k v] items IH]; intros w.
  - exists []. simpl. now rewrite add_delivered_nil.
  - cbn [for_each]. unfold bind, visit at 1. cbn [fst snd].
    destruct (excluded exclude k).
    + unfold ret. apply IH.
    + unfold send_text. destruct (assoc_nat (broken w) v) as [e|].
      * exists []. simpl. now rewrite add_delivered_nil.
      * change (log_delivered v message w)
          with (add_delivered [(v, message)] w).
        destruct (IH (add_delivered [(v, message)] w)) as (l & Hl).
        exists ([(v, message)] ++ l).
        destruct (for_each items (visit message exclude)
                    (add_delivered [(v, message)] w)) as [[?|?] w'];
          simpl in *; now rewrite Hl, add_delivered_app.
Qed.

Lemma excluded_one token k : excluded (Some [token]) k = str_eqb k token.
Proof. unfold excluded, str_mem. simpl. now rewrite orb_false_r. Qed.

Lemma targets_one token d :
  dict_wf d -> targets (Some [token]) d = dict_pop d token.
Proof.
  intros H. rewrite <- (filter_other_keys token H). unfold targets.
  apply filter_ext. intros item. now rewrite excluded_one.
Qed.


Lemma send_private_message_present message token ws w :
  dict_get (active_connections w) token = Some ws ->
  send_private_message message token w = send_text ws message w.
Proof.
  intros H. unfold send_private_message, bind, gets. now rewrite H.
Qed.

Lemma send_private_message_absent message token w :
  dict_get (active_connections w) token = None ->
  send_private_message message token w = (Returns tt, w).
Proof.
  intros H. unfold send_private_message, bind, gets. now rewrite H.
Qed.

Lemma frames_values message (items : dict websocket) :
  frames message items = map (fun v => (v, message)) (values items).
Proof. unfold frames, values. now rewrite map_map. Qed.

Lemma NoDup_values_pop (d : dict websocket) k :
  NoDup (values d) -> NoDup (values (dict_pop d k)).
Proof.
  induction d as [|[k' v'] d IH]; simpl; intros H; [constructor|].
  inversion H as [|? ? Hnin Hnd]; subst.
  destruct (str_eqb k' k); [assumption|].
  simpl. constructor; [|now apply IH].
  intros Hin. apply Hnin. eapply values_pop_incl; eassumption.
Qed.

(** ** Routing of one frame *)

(** A frame without recipient and with a body goes to every registered
    connection but the one under the sender's token. *)
Lemma handle_frame_broadcast name token data w :
  to data = None ->
  content_of data <> [] ->
  dict_wf (active_connections w) ->
  (forall item, In item (dict_pop (active_connections w) token) ->
                assoc_nat (broken w) (snd item) = None) ->
  handle_frame name token data w
  = (Returns tt,
     add_delivered
       (frames (name ++ py " >>> " ++ content_of data)
               (dict_pop (active_connections w) token)) w).
Proof.
  intros Hto Hc Hwf Hok. unfold handle_frame.
  apply truthy_nonempty in Hc. rewrite Hc, Hto. cbn [negb].
  rewrite send_broadcast_message_unfold.
  rewrite for_each_visit_ok; rewrite targets_one by assumption;
    [reflexivity|assumption].
Qed.

(** A frame naming a recipient that cannot be reached is answered by the
    offline notice, sent to the connection under the sender's token. *)
Lemma handle_frame_offline name token data recipient ws w :
  to data = Some recipient ->
  recipient <> [] ->
  content_of data <> [] ->
  match select_token_where_name (users w) recipient with
  | Some t => dict_contains (active_connections w) t = false
  | None => True
  end ->
  dict_get (active_connections w) token = Some ws ->
  handle_frame name token data w
  = send_text ws (py "Пользователь " ++ recipient ++ py " не в сети.") w.
Proof.
  intros Hto Hr Hc Hoff Hs. unfold handle_frame.
  apply truthy_nonempty in Hc. rewrite Hc, Hto. cbn [negb].
  destruct recipient as [|c r]; [congruence|].
  unfold bind at 1, gets at 1. unfold bind at 1, gets at 1.
  destruct (select_token_where_name (users w) (c :: r)) as [t|].
  - rewrite Hoff. now apply send_private_message_present.
  - now apply send_private_message_present.
Qed.

(** A frame whose escaped body is empty is dropped. *)
Lemma handle_frame_empty name token data w :
  content_of data = [] -> handle_frame name token data w = (Returns tt, w).
Proof. intros H. unfold handle_frame. now rewrite H. Qed.

(** ** Broadcast: everyone but the sender *)

(** C3. With N connections registered under distinct tokens and all their
    transports healthy, a frame without recipient and with a non-empty
    escaped body, sent by one of them, puts the text
    ["{sender} >>> {body}"] on exactly the N-1 other connections, once
    each, and not on the sender's. *)
Theorem C3_broadcast_reaches_all_but_sender name token ws data w :
  dict_wf (active_connections w) ->
  NoDup (values (active_connections w)) ->
  dict_get (active_connections w) token = Some ws ->
  (forall v, In v (values (active_connections w)) ->
             assoc_nat (broken w) v = None) ->
  to data = None ->
  content_of data <> [] ->
  exists others,
    fst (handle_frame name token data w) = Returns tt
    /\ delivered (snd (handle_frame name token data w))
       = delivered w
         ++ map (fun v => (v, name ++ py " >>> " ++ content_of data)) others
    /\ S (length others) = length (active_connections w)
    /\ NoDup others
    /\ ~ In ws others
    /\ (forall v, In v others <->
                  In v (values (active_connections w)) /\ v <> ws).
Proof.
  intros Hwf Hnd Hs Hok Hto Hc.
  exists (values (dict_pop (active_connections w) token)).
  rewrite handle_frame_broadcast; try assumption.
  2:{ intros item Hin. apply Hok. eapply values_pop_incl.
      apply in_map. exact Hin. }
  cbn [fst snd add_delivered delivered]. rewrite frames_values.
  repeat split.
  - unfold values. rewrite length_map. eapply length_pop_present; eassumption.
  - now apply NoDup_values_pop.
  - now apply values_pop_self.
  - eapply values_pop_incl; eassumption.
  - intros ->. eapply values_pop_self; eassumption.
  - intros [Hin Hne]. eapply values_pop_other; eassumption.
Qed.

Lemma C3_witness :
  exists others,
    fst (handle_frame (py "alice") (py "T1")
           (mkFrame None (Some (py "hi"))) three_users) = Returns tt
    /\ delivered (snd (handle_frame (py "alice") (py "T1")
                         (mkFrame None (Some (py "hi"))) three_users))
       = delivered three_users
         ++ map (fun v => (v, py "alice" ++ py " >>> "
                              ++ content_of (mkFrame None (Some (py "hi")))))
                others
    /\ S (length others) = length (active_connections three_users)
    /\ NoDup others
    /\ ~ In 1 others
    /\ (forall v, In v others <->
                  In v (values (active_connections three_users)) /\ v <> 1).
Proof.
  apply (@C3_broadcast_reaches_all_but_sender
           (py "alice") (py "T1") 1 (mkFrame None (Some (py "hi")))
           three_users).
  - repeat constructor; simpl; intuition discriminate.
  - repeat constructor; simpl; intuition discriminate.
  - reflexivity.
  - intros v _. reflexivity.
  - reflexivity.
  - discriminate.
Defined.

(** ** Deregistration *)

(** C9. Removing a token that is not registered raises nothing and leaves
    the whole state as it was; hence removing the same token a second time
    changes nothing more. *)
Theorem C9_terminate_connection_idempotent token w :
  dict_wf (active_connections w) ->
  (dict_contains (active_connections w) token = false ->
   terminate_connection token w = (Returns tt, w))
  /\ (terminate_connection token ;; terminate_connection token) w
     = terminate_connection token w.
Proof.
  intros Hwf.
  assert (forall w', dict_get (active_connections w') token = None ->
                     terminate_connection token w' = (Returns tt, w')) as A.
  { intros w' H. unfold terminate_connection, modify, set_active_connections.
    rewrite (dict_pop_absent _ _ H). now destruct w'. }
  split.
  - unfold dict_contains. intros H. apply A.
    destruct (dict_get (active_connections w) token); [discriminate|easy].
  - unfold bind. unfold terminate_connection at 1, modify.
    rewrite A; [reflexivity|].
    cbn [set_active_connections active_connections].
    now apply dict_get_pop_same.
Qed.

Lemma C9_witness :
  dict_wf (active_connections three_users)
  /\ dict_contains (active_connections three_users) (py "T9") = false
  /\ terminate_connection (py "T9") three_users = (Returns tt, three_users)
  /\ (terminate_connection (py "T2") ;; terminate_connection (py "T2"))
       three_users
     = terminate_connection (py "T2") three_users.
Proof.
  assert (dict_wf (active_connections three_users)) as Hwf
    by (repeat constructor; simpl; intuition discriminate).
  split; [exact Hwf|]. split; [reflexivity|]. split.
  - apply (proj1 (@C9_terminate_connection_idempotent (py "T9") three_users
                    Hwf)).
    reflexivity.
  - reflexivity.
Defined.

(** ** Handshake *)

Lemma select_token_where_token_None rows token :
  select_token_where_token rows token = None <-> ~ In token (map snd rows).
Proof.
  induction rows as [|[n t] rows IH]; simpl; [tauto|].
  destruct (str_eqb t token) eqn:E.
  - apply str_eqb_eq in E. split; [discriminate|tauto].
  - apply str_eqb_neq in E. rewrite IH. tauto.
Qed.

(** C2, as stated, fails: alice's token presented under the name bob does
    not validate for bob, yet the transport is accepted and not closed, the
    token is registered and the join notice goes out. *)
Lemma C2_token_of_another_name_accepted :
  validates_for (users two_online) (py "bob") (py "T1") = false
  /\ closed (snd (handle_websocket_connection 9 (py "bob") (py "T1") []
                    two_online)) = []
  /\ accepted (snd (handle_websocket_connection 9 (py "bob") (py "T1") []
                      two_online)) = [9]
  /\ dict_get (active_connections
                 (snd (handle_websocket_connection 9 (py "bob") (py "T1") []
                         two_online))) (py "T1") = Some 9
  /\ delivered (snd (handle_websocket_connection 9 (py "bob") (py "T1") []
                       two_online))
     = [(2, py "bob подключился к чату"); (3, py "bob подключился к чату")].
Proof. vm_compute. repeat split. Qed.

(** C2, amended. A handshake whose token is the token of no account is
    closed with code 1008 and changes nothing else: no entry is registered
    and no join notice is sent. The presented name is not looked at. *)
Theorem C2_unknown_token_rejected ws name token inbound w :
  ~ In token (map snd (users w)) ->
  handle_websocket_connection ws name token inbound w
  = (Returns tt, log_closed ws 1008 w)
  /\ active_connections (log_closed ws 1008 w) = active_connections w
  /\ delivered (log_closed ws 1008 w) = delivered w
  /\ accepted (log_closed ws 1008 w) = accepted w
  /\ closed (log_closed ws 1008 w) = closed w ++ [(ws, 1008%N)].
Proof.
  intros H. apply select_token_where_token_None in H.
  repeat split.
  unfold handle_websocket_connection, bind, verify_access_token, gets.
  now rewrite H.
Qed.

Lemma C2_witness :
  ~ In (py "T9") (map snd (users two_online))
  /\ handle_websocket_connection 9 (py "bob") (py "T9") [Disconnect] two_online
     = (Returns tt, log_closed 9 1008 two_online).
Proof.
  assert (~ In (py "T9") (map snd (users two_online))) as H
    by (simpl; intuition discriminate).
  split; [exact H|].
  apply (proj1 (@C2_unknown_token_rejected 9 (py "bob") (py "T9")
                  [Disconnect] two_online H)).
Defined.

(** ** Unicast to an unreachable name *)

Lemma content_of_nonempty data :
  get_default (message data) [] <> [] -> content_of data <> [].
Proof.
  intros H. unfold content_of. apply html_escape_nonempty.
  destruct (get_default (message data) []); [congruence|discriminate].
Qed.

(** A frame with an empty body is dropped before it is routed: dave has an
    account and no connection, alice is connected, and her frame to dave
    with an empty body produces no offline notice. *)
Lemma empty_body_to_offline_name_no_notice :
  select_token_where_name (users three_users) (py "dave") = Some (py "T4")
  /\ dict_contains (active_connections three_users) (py "T4") = false
  /\ dict_get (active_connections three_users) (py "T1") = Some 1
  /\ handle_frame (py "alice") (py "T1")
       (mkFrame (Some (py "dave")) (Some (py ""))) three_users
     = (Returns tt, three_users)
  /\ delivered three_users = [].
Proof. vm_compute. repeat split. Qed.




(** ** A failing transport during a broadcast *)

(** C5, as stated, fails: alice, bob and carol are registered in that order
    and bob's transport raises on send. Alice's broadcast raises out of the
    receive loop, her second frame is never handled, and carol, whose
    transport is healthy, receives nothing. *)
Lemma C5_failure_aborts_broadcast :
  assoc_nat (broken one_broken) 3 = None
  /\ fst (send_broadcast_message (py "alice >>> hi") (Some [py "T1"])
            one_broken) = Raises RuntimeError
  /\ receive_loop (py "alice") (py "T1")
       [Frame (mkFrame None (Some (py "hi")));
        Frame (mkFrame None (Some (py "again")))] one_broken
     = (Raises RuntimeError, one_broken)
  /\ delivered one_broken = [].
Proof. vm_compute. repeat split. Qed.

(** C5, amended. A broadcast serves the registry in insertion order and a
    failing send is not absorbed: the connections before the first failing
    one have received the text, the exception leaves the sender's receive
    loop, whose remaining frames are not handled, and no connection after
    the failing one is served. *)
Theorem C5_broadcast_stops_at_first_failure
  name token data rest pre k v post e w :
  to data = None ->
  content_of data <> [] ->
  active_connections w = pre ++ (k, v) :: post ->
  (forall item, In item (targets (Some [token]) pre) ->
                assoc_nat (broken w) (snd item) = None) ->
  k <> token ->
  assoc_nat (broken w) v = Some e ->
  receive_loop name token (Frame data :: rest) w
  = (Raises e,
     add_delivered
       (frames (name ++ py " >>> " ++ content_of data)
               (targets (Some [token]) pre)) w)
  /\ delivered
       (snd (receive_loop name token (Frame data :: rest) w))
     = delivered w
       ++ frames (name ++ py " >>> " ++ content_of data)
                 (targets (Some [token]) pre).
Proof.
  intros Hto Hc Hreg Hok Hk Hv.
  assert (receive_loop name token (Frame data :: rest) w
          = (Raises e,
             add_delivered
               (frames (name ++ py " >>> " ++ content_of data)
                       (targets (Some [token]) pre)) w)) as E.
  { cbn [receive_loop]. unfold bind at 1, handle_frame.
    apply truthy_nonempty in Hc. rewrite Hc, Hto. cbn [negb].
    rewrite send_broadcast_message_unfold, Hreg.
    rewrite (@for_each_visit_fail _ (Some [token]) pre k v post e);
      try assumption; [reflexivity|].
    rewrite excluded_one. now apply str_eqb_neq. }
  split; [exact E|]. now rewrite E.
Qed.

Lemma C5_witness :
  receive_loop (py "carol") (py "T3")
    (Frame (mkFrame None (Some (py "hi"))) :: [Disconnect]) one_broken
  = (Raises RuntimeError,
     add_delivered
       (frames (py "carol" ++ py " >>> "
                ++ content_of (mkFrame None (Some (py "hi"))))
               (targets (Some [py "T3"]) [(py "T1", 1)])) one_broken)
  /\ delivered
       (snd (receive_loop (py "carol") (py "T3")
               (Frame (mkFrame None (Some (py "hi"))) :: [Disconnect])
               one_broken))
     = delivered one_broken
       ++ frames (py "carol" ++ py " >>> "
                  ++ content_of (mkFrame None (Some (py "hi"))))
                 (targets (Some [py "T3"]) [(py "T1", 1)]).
Proof.
  apply (@C5_broadcast_stops_at_first_failure
           (py "carol") (py "T3") (mkFrame None (Some (py "hi")))
           [Disconnect] [(py "T1", 1)] (py "T2") 2 [(py "T3", 3)]
           RuntimeError one_broken).
  - reflexivity.
  - discriminate.
  - reflexivity.
  - intros item Hin. vm_compute in Hin.
    destruct Hin as [<-|[]]. reflexivity.
  - discriminate.
  - reflexivity.
Defined.

(** ** A second connection under a registered token *)

Lemma establish_connection_state ws username token w :
  exists l,
    snd (establish_connection ws username token w)
    = add_delivered l
        (set_active_connections (fun d => dict_set d token ws)
           (log_accepted ws w)).
Proof.
  unfold establish_connection, bind, accept, modify.
  rewrite send_broadcast_message_unfold. apply for_each_visit_frame.
Qed.

(** C6, as stated, fails: connection 1 is registered under alice's token;
    a second connection under the same token takes its place in the
    registry and connection 1 receives no close frame. *)
Lemma C6_existing_connection_not_closed :
  dict_get (active_connections alice_online) (py "T1") = Some 1
  /\ active_connections
       (snd (establish_connection 2 (py "alice") (py "T1") alice_online))
     = [(py "T1", 2)]
  /\ closed (snd (establish_connection 2 (py "alice") (py "T1") alice_online))
     = [].
Proof. vm_compute. repeat split. Qed.

(** C6, amended. Registering a connection under a token that already has
    an entry replaces the entry in place: the token then maps to the new
    connection, the set of registered tokens is the same, tokens stay
    pairwise distinct, and no close frame is sent to any connection. *)
Theorem C6_second_connection_overwrites ws username token old w :
  dict_wf (active_connections w) ->
  dict_get (active_connections w) token = Some old ->
  dict_get (active_connections
              (snd (establish_connection ws username token w))) token
  = Some ws
  /\ keys (active_connections
             (snd (establish_connection ws username token w)))
     = keys (active_connections w)
  /\ dict_wf (active_connections
                (snd (establish_connection ws username token w)))
  /\ closed (snd (establish_connection ws username token w)) = closed w.
Proof.
  intros Hwf Hold.
  destruct (establish_connection_state ws username token w) as (l & ->).
  cbn [add_delivered set_active_connections log_accepted active_connections
       closed].
  repeat split.
  - apply dict_get_set_same.
  - apply keys_set_present.
    destruct (in_dec (list_eq_dec N.eq_dec) token
                (keys (active_connections w))) as [Hin|Hout];
      [assumption|].
    apply dict_get_None in Hout. congruence.
  - now apply dict_wf_set.
Qed.

Lemma C6_witness :
  dict_get (active_connections
              (snd (establish_connection 4 (py "bob") (py "T2") three_users)))
           (py "T2")
  = Some 4
  /\ keys (active_connections
             (snd (establish_connection 4 (py "bob") (py "T2") three_users)))
     = keys (active_connections three_users)
  /\ dict_wf (active_connections
                (snd (establish_connection 4 (py "bob") (py "T2")
                        three_users)))
  /\ closed (snd (establish_connection 4 (py "bob") (py "T2") three_users))
     = closed three_users.
Proof.
  apply (@C6_second_connection_overwrites 4 (py "bob") (py "T2") 2
           three_users).
  - repeat constructor; simpl; intuition discriminate.
  - reflexivity.
Defined.

(** ** Truncation and escaping of the body *)

(** C7, as stated, fails: a body of 600 [<] is cut to 500 characters and
    then escaped, so the body text that is delivered has 2000 characters. *)
Lemma C7_escaped_body_longer_than_500 :
  length (repeat c_lt 600) = 600
  /\ length (content_of (mkFrame None (Some (repeat c_lt 600)))) = 2000
  /\ delivered
       (snd (handle_frame (py "alice") (py "T1")
               (mkFrame None (Some (repeat c_lt 600))) three_users))
     = [(2, py "alice >>> "
            ++ content_of (mkFrame None (Some (repeat c_lt 600))));
        (3, py "alice >>> "
            ++ content_of (mkFrame None (Some (repeat c_lt 600))))].
Proof. vm_compute. repeat split. Qed.

(** C7, amended. A body of 600 characters is cut to its first 500
    characters before it is escaped; the body text put into the payload is
    the escaped form of these 500 characters, so it has at least 500
    characters, and exactly 500, the cut body itself, when none of them is
    an ampersand, an angle bracket or a quote (single or double). *)
Theorem C7_body_truncated_then_escaped data body :
  message data = Some body ->
  length body = 600 ->
  content_of data = html_escape (firstn 500 body)
  /\ length (firstn 500 body) = 500
  /\ 500 <= length (content_of data)
  /\ (forallb (fun c => negb (special c)) (firstn 500 body) = true ->
      content_of data = firstn 500 body /\ length (content_of data) = 500)
  /\ (forall name token w,
        to data = None ->
        dict_wf (active_connections w) ->
        (forall item, In item (dict_pop (active_connections w) token) ->
                      assoc_nat (broken w) (snd item) = None) ->
        delivered (snd (handle_frame name token data w))
        = delivered w
          ++ frames (name ++ py " >>> " ++ html_escape (firstn 500 body))
                    (dict_pop (active_connections w) token)).
Proof.
  intros Hm Hlen.
  assert (content_of data = html_escape (firstn 500 body)) as C
    by (unfold content_of; now rewrite Hm).
  assert (length (firstn 500 body) = 500) as L
    by (rewrite length_firstn; lia).
  split; [exact C|]. split; [exact L|]. split; [|split].
  - rewrite C, <- L at 1. apply html_escape_length.
  - intros Hp. rewrite C, (html_escape_plain _ Hp). now split.
  - intros name token w Hto Hwf Hok.
    rewrite handle_frame_broadcast; try assumption.
    + now rewrite C.
    + rewrite C. apply html_escape_nonempty. intros E.
      rewrite E in L. discriminate.
Qed.

Lemma C7_witness :
  content_of (mkFrame None (Some (repeat 97%N 600)))
  = html_escape (firstn 500 (repeat 97%N 600))
  /\ length (firstn 500 (repeat 97%N 600)) = 500
  /\ 500 <= length (content_of (mkFrame None (Some (repeat 97%N 600))))
  /\ (forallb (fun c => negb (special c)) (firstn 500 (repeat 97%N 600))
      = true ->
      content_of (mkFrame None (Some (repeat 97%N 600)))
      = firstn 500 (repeat 97%N 600)
      /\ length (content_of (mkFrame None (Some (repeat 97%N 600)))) = 500)
  /\ (forall name token w,
        to (mkFrame None (Some (repeat 97%N 600))) = None ->
        dict_wf (active_connections w) ->
        (forall item, In item (dict_pop (active_connections w) token) ->
                      assoc_nat (broken w) (snd item) = None) ->
        delivered
          (snd (handle_frame name token
                  (mkFrame None (Some (repeat 97%N 600))) w))
        = delivered w
          ++ frames (name ++ py " >>> "
                     ++ html_escape (firstn 500 (repeat 97%N 600)))
                    (dict_pop (active_connections w) token)).
Proof.
  apply (@C7_body_truncated_then_escaped
           (mkFrame None (Some (repeat 97%N 600))) (repeat 97%N 600)).
  - reflexivity.
  - vm_compute. reflexivity.
Defined.

(** ** Sign-up *)

Lemma b64_char_not_pad (i : N) : N.eqb (b64_char i) c_pad = false.
Proof.
  apply N.eqb_neq. unfold b64_char, c_pad.
  destruct (N.ltb i 26) eqn:E1; [apply N.ltb_lt in E1; lia|].
  destruct (N.ltb i 52) eqn:E2; [apply N.ltb_lt in E2; lia|].
  destruct (N.ltb i 62) eqn:E3;
    [apply N.ltb_lt in E3; apply N.ltb_ge in E2; lia|].
  destruct (N.eqb i 62); lia.
Qed.

(** 32 bytes encode to 43 characters and one pad, which is stripped. *)
Lemma token_urlsafe_32_length (entropy : nat -> N) :
  length (token_urlsafe 32 entropy) = 43.
Proof.
  unfold token_urlsafe, token_bytes, rstrip.
  cbn [seq map urlsafe_b64encode app rev].
  cbn [lstrip]. rewrite N.eqb_refl, b64_char_not_pad.
  rewrite length_rev. reflexivity.
Qed.

Lemma access_token_length (entropy : nat -> N) :
  length (firstn 32 (token_urlsafe 32 entropy)) = 32.
Proof. rewrite length_firstn, token_urlsafe_32_length. reflexivity. Qed.

Lemma name_bounds_reflect (name : str) :
  Nat.leb 2 (length name) && Nat.leb (length name) 30 = true
  <-> 2 <= length name <= 30.
Proof.
  rewrite andb_true_iff, !Nat.leb_le. tauto.
Qed.

Lemma create_user_account_fresh name entropy w :
  select_1_where_name (users w) name = false ->
  existsb (fun row => str_eqb (snd row) (firstn 32 (token_urlsafe 32 entropy)))
          (users w) = false ->
  create_user_account name entropy w
  = (Returns (firstn 32 (token_urlsafe 32 entropy)),
     set_users
       (fun rows => rows ++ [(name, firstn 32 (token_urlsafe 32 entropy))])
       w).
Proof.
  intros Hn Ht. unfold create_user_account, bind at 1, gets.
  rewrite Hn. unfold bind, insert_user. now rewrite Ht.
Qed.

Lemma create_user_account_taken name entropy w :
  select_1_where_name (users w) name = true ->
  create_user_account name entropy w = (Raises (HTTPException 400), w).
Proof.
  intros Hn. unfold create_user_account, bind at 1, gets. now rewrite Hn.
Qed.

Lemma create_user_account_collision name entropy w :
  select_1_where_name (users w) name = false ->
  existsb (fun row => str_eqb (snd row) (firstn 32 (token_urlsafe 32 entropy)))
          (users w) = true ->
  create_user_account name entropy w = (Raises IntegrityError, w).
Proof.
  intros Hn Ht. unfold create_user_account, bind at 1, gets.
  rewrite Hn. unfold bind, insert_user. now rewrite Ht.
Qed.

Lemma rows_of_fresh_name rows name :
  select_1_where_name rows name = false ->
  filter (fun row => str_eqb (fst row) name) rows = [].
Proof.
  unfold select_1_where_name.
  induction rows as [|row rows IH]; simpl; [reflexivity|].
  intros H. apply orb_false_iff in H as [H1 H2]. rewrite H1. now apply IH.
Qed.

(** C8, as stated, fails on the status of a successful registration: the
    route answers 200, not 201. *)
Lemma C8_signup_answers_200 :
  select_1_where_name (users three_users) (py "erin") = false
  /\ status (fst (post_signup (py "erin") (fun i => N.of_nat (37 * i))
                    three_users)) = 200%N
  /\ status (fst (post_signup (py "erin") (fun i => N.of_nat (37 * i))
                    three_users)) <> 201%N.
Proof. vm_compute. repeat split. discriminate. Qed.

(** C8, amended. Registering a name of valid length that no account has,
    with a token that no account has, answers 200 with that token and adds
    the one row; registering the same name again answers 400 with no
    token and leaves the state as it is, so exactly one row, with the
    first token, exists for the name. *)
Theorem C8_second_signup_rejected name e1 e2 w :
  2 <= length name <= 30 ->
  select_1_where_name (users w) name = false ->
  existsb (fun row => str_eqb (snd row) (firstn 32 (token_urlsafe 32 e1)))
          (users w) = false ->
  post_signup name e1 w
  = (mkResponse 200 (Some (firstn 32 (token_urlsafe 32 e1))),
     set_users (fun rows => rows ++ [(name, firstn 32 (token_urlsafe 32 e1))])
               w)
  /\ post_signup name e2 (snd (post_signup name e1 w))
     = (mkResponse 400 None, snd (post_signup name e1 w))
  /\ filter (fun row => str_eqb (fst row) name)
            (users (snd (post_signup name e2 (snd (post_signup name e1 w)))))
     = [(name, firstn 32 (token_urlsafe 32 e1))].
Proof.
  intros Hlen Hn Ht. apply name_bounds_reflect in Hlen.
  assert (post_signup name e1 w
          = (mkResponse 200 (Some (firstn 32 (token_urlsafe 32 e1))),
             set_users
               (fun rows => rows ++ [(name, firstn 32 (token_urlsafe 32 e1))])
               w)) as E1.
  { unfold post_signup. rewrite Hlen. cbn [negb].
    now rewrite create_user_account_fresh. }
  rewrite E1. cbn [snd].
  assert (post_signup name e2
            (set_users
               (fun rows => rows ++ [(name, firstn 32 (token_urlsafe 32 e1))])
               w)
          = (mkResponse 400 None,
             set_users
               (fun rows => rows ++ [(name, firstn 32 (token_urlsafe 32 e1))])
               w)) as E2.
  { unfold post_signup. rewrite Hlen. cbn [negb].
    rewrite create_user_account_taken; [reflexivity|].
    cbn [set_users users]. unfold select_1_where_name.
    rewrite existsb_app. simpl. rewrite str_eqb_refl.
    now rewrite orb_true_r. }
  rewrite E2. cbn [snd set_users users].
  repeat split.
  rewrite filter_app, rows_of_fresh_name by assumption.
  simpl. now rewrite str_eqb_refl.
Qed.

Lemma C8_witness :
  post_signup (py "erin") (fun i => N.of_nat (37 * i)) three_users
  = (mkResponse 200
       (Some (firstn 32 (token_urlsafe 32 (fun i => N.of_nat (37 * i))))),
     set_users
       (fun rows =>
          rows ++ [(py "erin",
                    firstn 32 (token_urlsafe 32 (fun i => N.of_nat (37 * i))))])
       three_users)
  /\ post_signup (py "erin") (fun i => N.of_nat (5 * i))
       (snd (post_signup (py "erin") (fun i => N.of_nat (37 * i))
               three_users))
     = (mkResponse 400 None,
        snd (post_signup (py "erin") (fun i => N.of_nat (37 * i))
               three_users))
  /\ filter (fun row => str_eqb (fst row) (py "erin"))
       (users (snd (post_signup (py "erin") (fun i => N.of_nat (5 * i))
                      (snd (post_signup (py "erin")
                              (fun i => N.of_nat (37 * i)) three_users)))))
     = [(py "erin",
         firstn 32 (token_urlsafe 32 (fun i => N.of_nat (37 * i))))].
Proof.
  apply (@C8_second_signup_rejected (py "erin")
           (fun i => N.of_nat (37 * i)) (fun i => N.of_nat (5 * i))
           three_users).
  - vm_compute. split; repeat constructor.
  - reflexivity.
  - vm_compute. reflexivity.
Defined.

(** C10. Whatever the name, the randomness and the state, a token returned
    by the sign-up route has exactly 32 characters, and the route turns the
    request down at validation (422) exactly when the length of the name is
    not between 2 and 30; in particular an answer 200 implies these
    bounds. *)
Theorem C10_token_length_and_name_bounds name entropy w :
  (forall tok,
      token_field (fst (post_signup name entropy w)) = Some tok ->
      length tok = 32)
  /\ (status (fst (post_signup name entropy w)) = 422%N
      <-> ~ (2 <= length name <= 30))
  /\ (status (fst (post_signup name entropy w)) = 200%N ->
      2 <= length name <= 30).
Proof.
  unfold post_signup.
  destruct (Nat.leb 2 (length name) && Nat.leb (length name) 30) eqn:B;
    cbn [negb].
  - apply name_bounds_reflect in B.
    destruct (select_1_where_name (users w) name) eqn:Hn.
    + rewrite create_user_account_taken by assumption.
      cbn [fst token_field status].
      repeat split; intros; try congruence; tauto.
    + destruct (existsb
                  (fun row =>
                     str_eqb (snd row) (firstn 32 (token_urlsafe 32 entropy)))
                  (users w)) eqn:Ht.
      * rewrite create_user_account_collision by assumption.
        cbn [fst token_field status].
        repeat split; intros; try congruence; tauto.
      * rewrite create_user_account_fresh by assumption.
        cbn [fst token_field status].
        split; [|repeat split; intros; try congruence; tauto].
        intros tok [= <-]. apply access_token_length.
  - assert (~ (2 <= length name <= 30)) as N
      by (intros H; apply name_bounds_reflect in H; congruence).
    cbn [fst token_field status].
    repeat split; intros; try congruence; tauto.
Qed.

(** ** Markup in delivered payloads *)

(** The body text that [handle_frame] puts into a payload never contains
    [<script>]. *)
Lemma content_of_no_script (data : frame) :
  str_in (py "<script>") (content_of data) = false.
Proof.
  destruct (str_in (py "<script>") (content_of data)) eqn:E; [|reflexivity].
  change (py "<script>") with (c_lt :: py "script>") in E.
  apply str_in_head in E. unfold content_of in E.
  apply html_escape_no_markup in E. destruct E as [E _]. congruence.
Qed.

(** C1 does not hold of the code: only the body is escaped. The recipient
    name of a frame comes back unescaped in the offline notice, and the
    name given in the connection path goes out unescaped in the join
    notice. *)
Theorem C1_names_delivered_unescaped :
  delivered
    (snd (handle_frame (py "alice") (py "T1")
            (mkFrame (Some (py "<script>")) (Some (py "hi"))) three_users))
  = [(1, py "Пользователь <script> не в сети.")]
  /\ str_in (py "<script>") (py "Пользователь <script> не в сети.") = true
  /\ delivered
       (snd (handle_websocket_connection 9 (py "<script>") (py "T1") []
               two_online))
     = [(2, py "<script> подключился к чату");
        (3, py "<script> подключился к чату")]
  /\ str_in (py "<script>") (py "<script> подключился к чату") = true.
Proof. vm_compute. repeat split. Qed.

(** * Further properties of [web_socket.py] *)

(** ** What routing can and cannot change *)

Lemma only_sends_ret {A} (a : A) : only_sends (ret a).
Proof. intros w. exists []. simpl. now rewrite add_delivered_nil. Qed.

Lemma only_sends_raise {A} e : only_sends (@raise A e).
Proof. intros w. exists []. simpl. now rewrite add_delivered_nil. Qed.

Lemma only_sends_gets {A} (f : World -> A) : only_sends (gets f).
Proof. intros w. exists []. simpl. now rewrite add_delivered_nil. Qed.

Lemma only_sends_bind {A B} (m : M A) (k : A -> M B) :
  only_sends m -> (forall a, only_sends (k a)) -> only_sends (bind m k).
Proof.
  intros Hm Hk w. unfold bind. destruct (Hm w) as (l1 & E1).
  destruct (m w) as [[a|e] w1]; simpl in E1; subst w1.
  - destruct (Hk a (add_delivered l1 w)) as (l2 & E2).
    exists (l1 ++ l2). now rewrite E2, add_delivered_app.
  - now exists l1.
Qed.

Lemma only_sends_send_text ws text : only_sends (send_text ws text).
Proof.
  intros w. unfold send_text. destruct (assoc_nat (broken w) ws).
  - exists []. simpl. now rewrite add_delivered_nil.
  - now exists [(ws, text)].
Qed.

Lemma only_sends_send_private_message text token :
  only_sends (send_private_message text token).
Proof.
  apply only_sends_bind; [apply only_sends_gets|].
  intros d. destruct (dict_get d token).
  - apply only_sends_send_text.
  - apply only_sends_ret.
Qed.

Lemma only_sends_send_broadcast_message text exclude :
  only_sends (send_broadcast_message text exclude).
Proof.
  intros w. rewrite send_broadcast_message_unfold.
  apply for_each_visit_frame.
Qed.

Lemma only_sends_handle_frame name token data :
  only_sends (handle_frame name token data).
Proof.
  unfold handle_frame.
  destruct (negb (truthy (content_of data))); [apply only_sends_ret|].
  destruct (to data) as [[|c r]|];
    try apply only_sends_send_broadcast_message.
  apply only_sends_bind; [apply only_sends_gets|]. intros rows.
  apply only_sends_bind; [apply only_sends_gets|]. intros d.
  destruct (select_token_where_name rows (c :: r)) as [t|].
  - destruct (dict_contains d t).
    + apply only_sends_bind; [apply only_sends_send_private_message|].
      intros _. apply only_sends_send_private_message.
    + apply only_sends_send_private_message.
  - apply only_sends_send_private_message.
Qed.

Lemma only_sends_receive_loop name token inbound :
  only_sends (receive_loop name token inbound).
Proof.
  induction inbound as [|[data|] rest IH]; cbn [receive_loop].
  - apply only_sends_ret.
  - apply only_sends_bind; [apply only_sends_handle_frame|].
    intros _. exact IH.
  - apply only_sends_raise.
Qed.

(** X1. Routing a frame, and the whole receive loop, never touch the registry,
    the account store, the accepted or the closed transports: whatever
    arrives and whatever a send raises, only frames are handed out. *)
Theorem receive_loop_only_sends name token inbound w :
  active_connections (snd (receive_loop name token inbound w))
  = active_connections w
  /\ users (snd (receive_loop name token inbound w)) = users w
  /\ accepted (snd (receive_loop name token inbound w)) = accepted w
  /\ closed (snd (receive_loop name token inbound w)) = closed w
  /\ exists l,
       delivered (snd (receive_loop name token inbound w))
       = delivered w ++ l.
Proof.
  destruct (only_sends_receive_loop name token inbound w) as (l & ->).
  repeat split. now exists l.
Qed.

(** ** Unicast to a connected recipient *)

(** X2. A frame with a non-empty body, addressed to a name whose account's
    token is registered, puts ["{sender} >>> {body}"] on the recipient's
    connection and then the echo ["Вы >>> {body}"] on the connection under
    the sender's token, and nothing else. *)
Theorem unicast_delivers_message_then_echo
  name token ws recipient rtoken rws data w :
  to data = Some recipient ->
  recipient <> [] ->
  get_default (message data) [] <> [] ->
  select_token_where_name (users w) recipient = Some rtoken ->
  dict_get (active_connections w) rtoken = Some rws ->
  dict_get (active_connections w) token = Some ws ->
  assoc_nat (broken w) rws = None ->
  assoc_nat (broken w) ws = None ->
  handle_frame name token data w
  = (Returns tt,
     add_delivered
       [(rws, name ++ py " >>> " ++ content_of data);
        (ws, py "Вы >>> " ++ content_of data)] w).
Proof.
  intros Hto Hr Hb Hsel Hrws Hws Hokr Hoks.
  apply content_of_nonempty, truthy_nonempty in Hb.
  unfold handle_frame. rewrite Hb, Hto. cbn [negb].
  destruct recipient as [|c r]; [congruence|].
  unfold bind at 1, gets at 1. unfold bind at 1, gets at 1.
  rewrite Hsel. unfold dict_contains. rewrite Hrws.
  unfold bind.
  rewrite send_private_message_present with (ws := rws) by exact Hrws.
  rewrite send_text_ok by exact Hokr.
  rewrite send_private_message_present with (ws := ws) by exact Hws.
  rewrite send_text_ok by exact Hoks.
  now rewrite add_delivered_app.
Qed.

Lemma unicast_delivers_message_then_echo_witness :
  handle_frame (py "alice") (py "T1")
    (mkFrame (Some (py "bob")) (Some (py "a<b"))) three_users
  = (Returns tt,
     add_delivered
       [(2, py "alice" ++ py " >>> "
            ++ content_of (mkFrame (Some (py "bob")) (Some (py "a<b"))));
        (1, py "Вы >>> "
            ++ content_of (mkFrame (Some (py "bob")) (Some (py "a<b"))))]
       three_users).
Proof.
  apply (@unicast_delivers_message_then_echo
           (py "alice") (py "T1") 1 (py "bob") (py "T2") 2
           (mkFrame (Some (py "bob")) (Some (py "a<b"))) three_users);
    try reflexivity; discriminate.
Defined.

(** ** Empty bodies *)

Lemma content_of_empty_iff data :
  content_of data = [] <-> get_default (message data) [] = [].
Proof.
  split.
  - intros H. destruct (get_default (message data) []) eqn:E;
      [reflexivity|].
    exfalso. apply (@content_of_nonempty data); [rewrite E; discriminate|].
    exact H.
  - intros H. unfold content_of. now rewrite H.
Qed.

(** X3. The escaped body is empty only when the body itself is empty or
    missing, and such a frame is dropped whatever its recipient: nothing is
    sent and nothing is raised. *)
Theorem empty_body_is_dropped name token data w :
  (content_of data = [] <->
   message data = None \/ message data = Some [])
  /\ (message data = None \/ message data = Some [] ->
      handle_frame name token data w = (Returns tt, w)).
Proof.
  assert (get_default (message data) [] = [] <->
          message data = None \/ message data = Some []) as G.
  { destruct (message data) as [[|c s]|]; simpl; split; try tauto;
      try discriminate; intros [H|H]; congruence. }
  split.
  - rewrite content_of_empty_iff. exact G.
  - intros H. apply handle_frame_empty.
    apply content_of_empty_iff. now apply G.
Qed.

(** ** Joining *)

Lemma dict_set_absent {V} (d : dict V) k v :
  dict_get d k = None -> dict_set d k v = d ++ [(k, v)].
Proof.
  induction d as [|[k' v'] d IH]; simpl; [reflexivity|].
  destruct (str_eqb k' k); [discriminate|].
  intros H. now rewrite IH.
Qed.

Lemma dict_pop_last {V} (d : dict V) k v :
  dict_get d k = None -> dict_pop (d ++ [(k, v)]) k = d.
Proof.
  induction d as [|[k' v'] d IH]; simpl.
  - now rewrite str_eqb_refl.
  - destruct (str_eqb k' k); [discriminate|].
    intros H. now rewrite IH.
Qed.

Lemma dict_get_pop_other {V} (d : dict V) k k' :
  k' <> k -> dict_get (dict_pop d k) k' = dict_get d k'.
Proof.
  intros Hne. induction d as [|[k0 v0] d IH]; simpl; [reflexivity|].
  destruct (str_eqb k0 k) eqn:E; simpl.
  - apply str_eqb_eq in E. subst k0.
    assert (str_eqb k k' = false) as -> by (apply str_eqb_neq; congruence).
    reflexivity.
  - destruct (str_eqb k0 k'); [reflexivity|exact IH].
Qed.

(** X4. A connection under a token that is not yet registered is accepted,
    appended to the registry, and announced once to each connection that
    was registered before it, in registration order, and not to
    itself. *)
Theorem join_notice_reaches_those_already_registered ws username token w :
  dict_wf (active_connections w) ->
  dict_get (active_connections w) token = None ->
  (forall item, In item (active_connections w) ->
                assoc_nat (broken w) (snd item) = None) ->
  fst (establish_connection ws username token w) = Returns tt
  /\ active_connections (snd (establish_connection ws username token w))
     = active_connections w ++ [(token, ws)]
  /\ accepted (snd (establish_connection ws username token w))
     = accepted w ++ [ws]
  /\ closed (snd (establish_connection ws username token w)) = closed w
  /\ delivered (snd (establish_connection ws username token w))
     = delivered w
       ++ frames (username ++ py " подключился к чату")
                 (active_connections w).
Proof.
  intros Hwf Habs Hok.
  assert (establish_connection ws username token w
          = (Returns tt,
             add_delivered
               (frames (username ++ py " подключился к чату")
                       (active_connections w))
               (set_active_connections (fun d => dict_set d token ws)
                  (log_accepted ws w)))) as E.
  { unfold establish_connection, bind, accept, modify.
    rewrite send_broadcast_message_unfold.
    cbn [set_active_connections log_accepted active_connections].
    assert (targets (Some [token]) (dict_set (active_connections w) token ws)
            = active_connections w) as T.
    { rewrite targets_one by now apply dict_wf_set.
      rewrite dict_set_absent by assumption. now apply dict_pop_last. }
    rewrite for_each_visit_ok; rewrite T; [reflexivity|exact Hok]. }
  rewrite E.
  cbn [fst snd add_delivered set_active_connections log_accepted
       active_connections accepted closed delivered].
  rewrite dict_set_absent by assumption. repeat split.
Qed.

Lemma join_notice_reaches_those_already_registered_witness :
  fst (establish_connection 4 (py "dave") (py "T4") three_users) = Returns tt
  /\ active_connections
       (snd (establish_connection 4 (py "dave") (py "T4") three_users))
     = active_connections three_users ++ [(py "T4", 4)]
  /\ accepted (snd (establish_connection 4 (py "dave") (py "T4") three_users))
     = accepted three_users ++ [4]
  /\ closed (snd (establish_connection 4 (py "dave") (py "T4") three_users))
     = closed three_users
  /\ delivered (snd (establish_connection 4 (py "dave") (py "T4")
                       three_users))
     = delivered three_users
       ++ frames (py "dave" ++ py " подключился к чату")
                 (active_connections three_users).
Proof.
  apply (@join_notice_reaches_those_already_registered
           4 (py "dave") (py "T4") three_users).
  - repeat constructor; simpl; intuition discriminate.
  - reflexivity.
  - intros item _. reflexivity.
Defined.

(** X5. The join broadcast runs before the [try]: when it fails on a
    connection [v], the exception leaves the handler, no frame of the new
    connection is ever read, and the new connection stays in the registry,
    as no cleanup runs. *)
Theorem failed_join_leaves_connection_registered
  ws name token inbound pre k v post e w :
  In token (map snd (users w)) ->
  dict_set (active_connections w) token ws = pre ++ (k, v) :: post ->
  (forall item, In item (targets (Some [token]) pre) ->
                assoc_nat (broken w) (snd item) = None) ->
  k <> token ->
  assoc_nat (broken w) v = Some e ->
  handle_websocket_connection ws name token inbound w
  = (Raises e,
     add_delivered
       (frames (name ++ py " подключился к чату")
               (targets (Some [token]) pre))
       (set_active_connections (fun d => dict_set d token ws)
          (log_accepted ws w)))
  /\ dict_get
       (active_connections
          (snd (handle_websocket_connection ws name token inbound w))) token
     = Some ws.
Proof.
  intros Hin Hreg Hok Hk Hv.
  assert (select_token_where_token (users w) token = Some token) as Hsel.
  { clear -Hin. induction (users w) as [|[n t] rows IH]; simpl in *.
    - contradiction.
    - destruct (str_eqb t token) eqn:E.
      + apply str_eqb_eq in E. now subst.
      + apply IH. destruct Hin as [H|H]; [|exact H].
        apply str_eqb_neq in E. contradiction. }
  assert (handle_websocket_connection ws name token inbound w
          = (Raises e,
             add_delivered
               (frames (name ++ py " подключился к чату")
                       (targets (Some [token]) pre))
               (set_active_connections (fun d => dict_set d token ws)
                  (log_accepted ws w)))) as E.
  { unfold handle_websocket_connection, bind at 1, verify_access_token, gets.
    rewrite Hsel. cbn [option_str_eqb]. rewrite str_eqb_refl. cbn [negb].
    unfold bind at 1, establish_connection, bind, accept, modify.
    rewrite send_broadcast_message_unfold.
    cbn [set_active_connections log_accepted active_connections].
    rewrite Hreg.
    rewrite (@for_each_visit_fail _ (Some [token]) pre k v post e);
      try assumption; [reflexivity|].
    rewrite excluded_one. now apply str_eqb_neq. }
  split; [exact E|]. rewrite E.
  cbn [snd add_delivered set_active_connections active_connections].
  apply dict_get_set_same.
Qed.

Lemma failed_join_leaves_connection_registered_witness :
  handle_websocket_connection 4 (py "dave") (py "T1")
    [Disconnect] one_broken
  = (Raises RuntimeError,
     add_delivered
       (frames (py "dave" ++ py " подключился к чату")
               (targets (Some [py "T1"]) [(py "T1", 4)]))
       (set_active_connections (fun d => dict_set d (py "T1") 4)
          (log_accepted 4 one_broken)))
  /\ dict_get
       (active_connections
          (snd (handle_websocket_connection 4 (py "dave") (py "T1")
                  [Disconnect] one_broken))) (py "T1")
     = Some 4.
Proof.
  apply (@failed_join_leaves_connection_registered
           4 (py "dave") (py "T1") [Disconnect]
           [(py "T1", 4)] (py "T2") 2 [(py "T3", 3)] RuntimeError one_broken).
  - simpl. intuition.
  - reflexivity.
  - intros item Hin. vm_compute in Hin. contradiction.
  - discriminate.
  - reflexivity.
Defined.

(** ** Leaving *)








Lemma select_token_where_token_stored rows token :
  In token (map snd rows) ->
  select_token_where_token rows token = Some token.
Proof.
  induction rows as [|[n t] rows IH]; simpl; [contradiction|].
  destruct (str_eqb t token) eqn:E.
  - apply str_eqb_eq in E. now subst.
  - intros [H|H]; [|now apply IH].
    apply str_eqb_neq in E. contradiction.
Qed.



(** ** The handler as a whole *)

Lemma set_active_add_delivered f l w :
  set_active_connections f (add_delivered l w)
  = add_delivered l (set_active_connections f w).
Proof. reflexivity. Qed.

(** After an accepted handshake the state differs from the initial one by
    the accepted transport, the frames handed out, and a registry that
    either holds the new entry or has had the token removed again. *)
Lemma accepted_handler_state ws name token inbound w :
  In token (map snd (users w)) ->
  exists l d',
    snd (handle_websocket_connection ws name token inbound w)
    = add_delivered l
        (set_active_connections (fun _ => d') (log_accepted ws w))
    /\ (d' = dict_set (active_connections w) token ws
        \/ d' = dict_pop (dict_set (active_connections w) token ws) token).
Proof.
  intros Hin.
  unfold handle_websocket_connection, bind at 1, verify_access_token, gets.
  rewrite (@select_token_where_token_stored _ _ Hin).
  cbn [option_str_eqb]. rewrite str_eqb_refl. cbn [negb].
  unfold bind at 1.
  destruct (establish_connection_state ws name token w) as (l0 & E0).
  destruct (establish_connection ws name token w) as [[[]|e] w1];
    cbn [snd] in E0; subst w1.
  - unfold try_except_disconnect.
    match goal with
    | |- context [receive_loop name token inbound ?w1] =>
        destruct (@only_sends_receive_loop name token inbound w1) as (l1 & E1);
        destruct (receive_loop name token inbound w1) as [[[]|e] w2];
        cbn [snd] in E1; subst w2
    end.
    + exists (l0 ++ l1), (dict_set (active_connections w) token ws).
      cbn [snd]. rewrite add_delivered_app. split; [reflexivity|now left].
    + destruct e;
        try (exists (l0 ++ l1), (dict_set (active_connections w) token ws);
             cbn [snd]; rewrite add_delivered_app;
             split; [reflexivity|now left]).
      unfold bind, terminate_connection, modify.
      match goal with
      | |- context [send_broadcast_message ?m ?x ?w3] =>
          destruct (@only_sends_send_broadcast_message m x w3) as (l2 & ->)
      end.
      exists ((l0 ++ l1) ++ l2),
        (dict_pop (dict_set (active_connections w) token ws) token).
      split; [|now right].
      rewrite !set_active_add_delivered, !add_delivered_app, app_assoc.
      reflexivity.
  - exists l0, (dict_set (active_connections w) token ws).
    split; [reflexivity|now left].
Qed.

(** X7. A handshake with a stored token is accepted whatever happens later:
    the transport is accepted once, never closed by the server, the
    account store is not written, and the registry ends either with the
    token mapped to this connection or with the token removed. *)
Theorem stored_token_is_accepted ws name token inbound w :
  In token (map snd (users w)) ->
  accepted (snd (handle_websocket_connection ws name token inbound w))
  = accepted w ++ [ws]
  /\ closed (snd (handle_websocket_connection ws name token inbound w))
     = closed w
  /\ users (snd (handle_websocket_connection ws name token inbound w))
     = users w
  /\ (active_connections
        (snd (handle_websocket_connection ws name token inbound w))
      = dict_set (active_connections w) token ws
      \/ active_connections
           (snd (handle_websocket_connection ws name token inbound w))
         = dict_pop (dict_set (active_connections w) token ws) token).
Proof.
  intros Hin.
  destruct (@accepted_handler_state ws name token inbound w Hin)
    as (l & d' & -> & Hd).
  cbn [add_delivered set_active_connections log_accepted accepted closed
       users active_connections].
  repeat split. exact Hd.
Qed.

Lemma stored_token_is_accepted_witness :
  accepted (snd (handle_websocket_connection 4 (py "dave") (py "T4")
                   [Disconnect] three_users))
  = accepted three_users ++ [4]
  /\ closed (snd (handle_websocket_connection 4 (py "dave") (py "T4")
                    [Disconnect] three_users))
     = closed three_users
  /\ users (snd (handle_websocket_connection 4 (py "dave") (py "T4")
                   [Disconnect] three_users))
     = users three_users
  /\ (active_connections
        (snd (handle_websocket_connection 4 (py "dave") (py "T4")
                [Disconnect] three_users))
      = dict_set (active_connections three_users) (py "T4") 4
      \/ active_connections
           (snd (handle_websocket_connection 4 (py "dave") (py "T4")
                   [Disconnect] three_users))
         = dict_pop (dict_set (active_connections three_users) (py "T4") 4)
                    (py "T4")).
Proof.
  apply (@stored_token_is_accepted 4 (py "dave") (py "T4") [Disconnect]
           three_users).
  simpl. intuition.
Defined.

(** X8. The handler keeps the registry a dictionary, with pairwise distinct
    tokens, and never writes the account store, for every token, every
    inbound traffic and every failure of a transport. *)
Theorem handler_keeps_registry_well_formed ws name token inbound w :
  dict_wf (active_connections w) ->
  dict_wf (active_connections
             (snd (handle_websocket_connection ws name token inbound w)))
  /\ users (snd (handle_websocket_connection ws name token inbound w))
     = users w.
Proof.
  intros Hwf.
  destruct (in_dec (list_eq_dec N.eq_dec) token (map snd (users w)))
    as [Hin|Hout].
  - destruct (@accepted_handler_state ws name token inbound w Hin)
      as (l & d' & -> & Hd).
    cbn [add_delivered set_active_connections log_accepted users
         active_connections].
    split; [|reflexivity].
    destruct Hd as [->| ->].
    + now apply dict_wf_set.
    + now apply dict_wf_pop, dict_wf_set.
  - apply select_token_where_token_None in Hout.
    unfold handle_websocket_connection, bind, verify_access_token, gets.
    rewrite Hout. cbn. now split.
Qed.

Lemma handler_keeps_registry_well_formed_witness :
  dict_wf (active_connections
             (snd (handle_websocket_connection 4 (py "dave") (py "T2")
                     [Frame (mkFrame None (Some (py "hi"))); Disconnect]
                     three_users)))
  /\ users (snd (handle_websocket_connection 4 (py "dave") (py "T2")
                   [Frame (mkFrame None (Some (py "hi"))); Disconnect]
                   three_users))
     = users three_users.
Proof.
  apply (@handler_keeps_registry_well_formed 4 (py "dave") (py "T2")
           [Frame (mkFrame None (Some (py "hi"))); Disconnect] three_users).
  repeat constructor; simpl; intuition discriminate.
Defined.

(** ** Unicast after the recipient has left *)

(** X9. Once the recipient's token has been removed from the registry, a
    frame addressed to the recipient's name is answered by the offline
    notice to the sender, and nothing reaches the recipient. *)
Theorem unicast_after_leave_gets_offline_notice
  name token ws recipient rtoken data w :
  dict_wf (active_connections w) ->
  to data = Some recipient ->
  recipient <> [] ->
  get_default (message data) [] <> [] ->
  select_token_where_name (users w) recipient = Some rtoken ->
  rtoken <> token ->
  dict_get (active_connections w) token = Some ws ->
  assoc_nat (broken w) ws = None ->
  (terminate_connection rtoken ;; handle_frame name token data) w
  = (Returns tt,
     add_delivered
       [(ws, py "Пользователь " ++ recipient ++ py " не в сети.")]
       (set_active_connections (fun d => dict_pop d rtoken) w)).
Proof.
  intros Hwf Hto Hr Hb Hsel Hne Hs Hok.
  unfold bind, terminate_connection, modify.
  rewrite (@handle_frame_offline name token data recipient ws); try assumption.
  - now apply send_text_ok.
  - now apply content_of_nonempty.
  - cbn [set_active_connections users active_connections]. rewrite Hsel.
    unfold dict_contains. now rewrite dict_get_pop_same.
  - cbn [set_active_connections active_connections].
    rewrite dict_get_pop_other by congruence. exact Hs.
Qed.

Lemma unicast_after_leave_gets_offline_notice_witness :
  (terminate_connection (py "T2") ;;
   handle_frame (py "alice") (py "T1")
     (mkFrame (Some (py "bob")) (Some (py "hi")))) three_users
  = (Returns tt,
     add_delivered
       [(1, py "Пользователь " ++ py "bob" ++ py " не в сети.")]
       (set_active_connections (fun d => dict_pop d (py "T2")) three_users)).
Proof.
  apply (@unicast_after_leave_gets_offline_notice
           (py "alice") (py "T1") 1 (py "bob") (py "T2")
           (mkFrame (Some (py "bob")) (Some (py "hi"))) three_users);
    try reflexivity; try discriminate.
  repeat constructor; simpl; intuition discriminate.
Defined.

(** ** Sign-up and the account store *)

Lemma select_token_where_name_fresh rows name tok :
  select_1_where_name rows name = false ->
  select_token_where_name (rows ++ [(name, tok)]) name = Some tok.
Proof.
  unfold select_1_where_name.
  induction rows as [|[n t] rows IH]; simpl.
  - now rewrite str_eqb_refl.
  - intros H. apply orb_false_iff in H as [H1 H2]. rewrite H1. now apply IH.
Qed.

Lemma select_1_where_name_false rows name :
  select_1_where_name rows name = false <-> ~ In name (map fst rows).
Proof.
  unfold select_1_where_name.
  induction rows as [|[n t] rows IH]; simpl; [tauto|].
  rewrite orb_false_iff, IH. split.
  - intros [H1 H2] [E|H]; [|tauto]. apply str_eqb_neq in H1. congruence.
  - intros H. split; [|tauto]. apply str_eqb_neq. tauto.
Qed.

Lemma token_not_stored rows tok :
  existsb (fun row : str * str => str_eqb (snd row) tok) rows = false
  <-> ~ In tok (map snd rows).
Proof.
  induction rows as [|[n t] rows IH]; simpl; [tauto|].
  rewrite orb_false_iff, IH. split.
  - intros [H1 H2] [E|H]; [|tauto]. apply str_eqb_neq in H1. congruence.
  - intros H. split; [|tauto]. apply str_eqb_neq. tauto.
Qed.

(** The three ways a request with a name of valid length can end. *)
Lemma post_signup_cases name entropy w :
  Nat.leb 2 (length name) && Nat.leb (length name) 30 = true ->
  (select_1_where_name (users w) name = true
   /\ post_signup name entropy w = (mkResponse 400 None, w))
  \/ (select_1_where_name (users w) name = false
      /\ In (firstn 32 (token_urlsafe 32 entropy)) (map snd (users w))
      /\ post_signup name entropy w = (mkResponse 500 None, w))
  \/ (select_1_where_name (users w) name = false
      /\ ~ In (firstn 32 (token_urlsafe 32 entropy)) (map snd (users w))
      /\ post_signup name entropy w
         = (mkResponse 200 (Some (firstn 32 (token_urlsafe 32 entropy))),
            set_users
              (fun rows =>
                 rows ++ [(name, firstn 32 (token_urlsafe 32 entropy))])
              w)).
Proof.
  intros B. unfold post_signup. rewrite B. cbn [negb].
  destruct (select_1_where_name (users w) name) eqn:Hn.
  - left. now rewrite create_user_account_taken.
  - right.
    destruct (existsb
                (fun row =>
                   str_eqb (snd row) (firstn 32 (token_urlsafe 32 entropy)))
                (users w)) eqn:Ht.
    + left. rewrite create_user_account_collision by assumption.
      repeat split.
      destruct (in_dec (list_eq_dec N.eq_dec)
                  (firstn 32 (token_urlsafe 32 entropy))
                  (map snd (users w))) as [H|H]; [exact H|].
      apply token_not_stored in H. congruence.
    + right. rewrite create_user_account_fresh by assumption.
      repeat split. now apply token_not_stored.
Qed.

(** X10. The repository's own test, for every name and every state: when the
    sign-up answers 200, the token it returns has 32 characters, is then
    recognised by [verify_access_token], and is the token that a unicast
    to that name resolves to. *)
Theorem issued_token_is_recognised name entropy w :
  status (fst (post_signup name entropy w)) = 200%N ->
  exists tok,
    token_field (fst (post_signup name entropy w)) = Some tok
    /\ length tok = 32
    /\ verify_access_token tok (snd (post_signup name entropy w))
       = (Returns (Some tok), snd (post_signup name entropy w))
    /\ select_token_where_name (users (snd (post_signup name entropy w))) name
       = Some tok.
Proof.
  intros H200.
  destruct (Nat.leb 2 (length name) && Nat.leb (length name) 30) eqn:B.
  2:{ unfold post_signup in H200. rewrite B in H200. discriminate. }
  destruct (post_signup_cases name entropy w B)
    as [(_ & E)|[(_ & _ & E)|(Hn & Ht & E)]];
    rewrite E in H200 |- *; try discriminate.
  exists (firstn 32 (token_urlsafe 32 entropy)).
  cbn [fst snd token_field set_users users].
  split; [reflexivity|]. split; [apply access_token_length|]. split.
  - unfold verify_access_token, gets. cbn [set_users users].
    rewrite select_token_where_token_stored; [reflexivity|].
    rewrite map_app, in_app_iff. right. now left.
  - now apply select_token_where_name_fresh.
Qed.

Lemma issued_token_is_recognised_witness :
  exists tok,
    token_field (fst (post_signup (py "test-user") (fun i => N.of_nat i)
                        three_users)) = Some tok
    /\ length tok = 32
    /\ verify_access_token tok
         (snd (post_signup (py "test-user") (fun i => N.of_nat i)
                 three_users))
       = (Returns (Some tok),
          snd (post_signup (py "test-user") (fun i => N.of_nat i)
                 three_users))
    /\ select_token_where_name
         (users (snd (post_signup (py "test-user") (fun i => N.of_nat i)
                        three_users))) (py "test-user")
       = Some tok.
Proof.
  apply (@issued_token_is_recognised (py "test-user")
           (fun i => N.of_nat i) three_users).
  vm_compute. reflexivity.
Defined.

(** X11. A sign-up that does not answer 200 returns no token and leaves the
    whole state as it was: a name that is too short or too long (422), a
    name already taken (400), a token already stored (500). *)
Theorem failed_signup_changes_nothing name entropy w :
  status (fst (post_signup name entropy w)) <> 200%N ->
  snd (post_signup name entropy w) = w
  /\ token_field (fst (post_signup name entropy w)) = None
  /\ (status (fst (post_signup name entropy w)) = 422%N
      \/ status (fst (post_signup name entropy w)) = 400%N
      \/ status (fst (post_signup name entropy w)) = 500%N).
Proof.
  intros Hne.
  destruct (Nat.leb 2 (length name) && Nat.leb (length name) 30) eqn:B.
  - destruct (post_signup_cases name entropy w B)
      as [(_ & E)|[(_ & _ & E)|(_ & _ & E)]];
      rewrite E in Hne |- *; cbn [fst snd status token_field] in *;
      try tauto; congruence.
  - unfold post_signup in *. rewrite B in *.
    cbn [negb fst snd status token_field] in *. tauto.
Qed.

Lemma failed_signup_changes_nothing_witness :
  snd (post_signup (py "alice") (fun i => N.of_nat i) three_users)
  = three_users
  /\ token_field (fst (post_signup (py "alice") (fun i => N.of_nat i)
                         three_users)) = None
  /\ (status (fst (post_signup (py "alice") (fun i => N.of_nat i)
                     three_users)) = 422%N
      \/ status (fst (post_signup (py "alice") (fun i => N.of_nat i)
                        three_users)) = 400%N
      \/ status (fst (post_signup (py "alice") (fun i => N.of_nat i)
                        three_users)) = 500%N).
Proof.
  apply (@failed_signup_changes_nothing (py "alice")
           (fun i => N.of_nat i) three_users).
  vm_compute. discriminate.
Defined.

(** X12. Sign-up keeps the account store free of duplicates: if no two accounts
    share a name and no two share a token, this still holds after any
    request. *)
Theorem signup_keeps_names_and_tokens_unique name entropy w :
  NoDup (map fst (users w)) ->
  NoDup (map snd (users w)) ->
  NoDup (map fst (users (snd (post_signup name entropy w))))
  /\ NoDup (map snd (users (snd (post_signup name entropy w)))).
Proof.
  intros Hn Ht.
  destruct (Nat.leb 2 (length name) && Nat.leb (length name) 30) eqn:B.
  - destruct (post_signup_cases name entropy w B)
      as [(_ & E)|[(_ & _ & E)|(Hfresh & Htok & E)]];
      rewrite E; cbn [snd]; try (now split).
    cbn [set_users users]. rewrite !map_app. cbn [map fst snd].
    apply select_1_where_name_false in Hfresh.
    split; apply NoDup_app; try assumption;
      try (repeat constructor; simpl; tauto);
      intros x Hx [<-|[]]; contradiction.
  - unfold post_signup. rewrite B. cbn. now split.
Qed.

Lemma signup_keeps_names_and_tokens_unique_witness :
  NoDup (map fst (users (snd (post_signup (py "erin")
                                (fun i => N.of_nat i) three_users))))
  /\ NoDup (map snd (users (snd (post_signup (py "erin")
                                   (fun i => N.of_nat i) three_users)))).
Proof.
  apply (@signup_keeps_names_and_tokens_unique (py "erin")
           (fun i => N.of_nat i) three_users).
  - repeat constructor; simpl; intuition discriminate.
  - repeat constructor; simpl; intuition discriminate.
Defined.

(** ** The shape of an issued token *)

Lemma b64_char_urlsafe (i : N) : urlsafe_char (b64_char i) = true.
Proof.
  unfold b64_char, urlsafe_char.
  destruct (N.ltb i 26) eqn:E1.
  { apply N.ltb_lt in E1.
    assert (N.leb 65 (65 + i) = true) as -> by (apply N.leb_le; lia).
    assert (N.leb (65 + i) 90 = true) as -> by (apply N.leb_le; lia).
    reflexivity. }
  apply N.ltb_ge in E1.
  destruct (N.ltb i 52) eqn:E2.
  { apply N.ltb_lt in E2.
    assert (N.leb 97 (97 + (i - 26)) = true) as -> by (apply N.leb_le; lia).
    assert (N.leb (97 + (i - 26)) 122 = true) as ->
      by (apply N.leb_le; lia).
    now rewrite orb_true_r. }
  apply N.ltb_ge in E2.
  destruct (N.ltb i 62) eqn:E3.
  { apply N.ltb_lt in E3.
    assert (N.leb 48 (48 + (i - 52)) = true) as -> by (apply N.leb_le; lia).
    assert (N.leb (48 + (i - 52)) 57 = true) as -> by (apply N.leb_le; lia).
    now rewrite !orb_true_r. }
  destruct (N.eqb i 62); cbn; reflexivity.
Qed.

(** X13. Every character of a token returned by the sign-up is a letter, a
    digit, [-] or [_]; in particular a token holds no [/] and fits the
    path segment of [/connect/{name}/{token}]. *)
Theorem issued_token_is_urlsafe name entropy w tok :
  token_field (fst (post_signup name entropy w)) = Some tok ->
  forallb urlsafe_char tok = true /\ ~ In 47%N tok.
Proof.
  intros H.
  assert (tok = firstn 32 (token_urlsafe 32 entropy)) as ->.
  { destruct (Nat.leb 2 (length name) && Nat.leb (length name) 30) eqn:B.
    - destruct (post_signup_cases name entropy w B)
        as [(_ & E)|[(_ & _ & E)|(_ & _ & E)]];
        rewrite E in H; cbn [fst token_field] in H; congruence.
    - unfold post_signup in H. rewrite B in H. discriminate. }
  assert (forallb urlsafe_char (firstn 32 (token_urlsafe 32 entropy)) = true)
    as F.
  { unfold token_urlsafe, token_bytes, rstrip.
    cbn [seq map urlsafe_b64encode app rev].
    cbn [lstrip]. rewrite N.eqb_refl, b64_char_not_pad.
    cbn [rev app firstn forallb].
    rewrite !b64_char_urlsafe. reflexivity. }
  split; [exact F|].
  intros Hin. rewrite forallb_forall in F. apply F in Hin. discriminate.
Qed.

Lemma issued_token_is_urlsafe_witness :
  forallb urlsafe_char (firstn 32 (token_urlsafe 32 (fun i => N.of_nat i)))
  = true
  /\ ~ In 47%N (firstn 32 (token_urlsafe 32 (fun i => N.of_nat i))).
Proof.
  apply (@issued_token_is_urlsafe (py "erin") (fun i => N.of_nat i)
           three_users).
  vm_compute. reflexivity.
Defined.

(** ** The escaped body *)

Lemma escape_char_clean (c x : char) :
  In x (escape_char c) ->
  x <> c_lt /\ x <> c_gt /\ x <> c_quot /\ x <> c_apos.
Proof.
  unfold escape_char.
  destruct (N.eqb c c_amp) eqn:E1;
    [|destruct (N.eqb c c_lt) eqn:E2;
      [|destruct (N.eqb c c_gt) eqn:E3;
        [|destruct (N.eqb c c_quot) eqn:E4;
          [|destruct (N.eqb c c_apos) eqn:E5]]]];
    cbn; intros H;
    repeat (destruct H as [<-|H]; [repeat split; discriminate|]);
    try contradiction.
  destruct H as [<-|[]].
  apply N.eqb_neq in E2, E3, E4, E5. tauto.
Qed.

Lemma escape_char_length_le (c : char) : length (escape_char c) <= 6.
Proof.
  unfold escape_char.
  repeat match goal with |- context [if ?b then _ else _] => destruct b end;
    cbn; lia.
Qed.

Lemma html_escape_length_le (s : str) :
  length (html_escape s) <= 6 * length s.
Proof.
  induction s as [|c s IH]; [simpl; lia|].
  rewrite html_escape_cons, length_app. simpl length.
  pose proof (escape_char_length_le c). lia.
Qed.

(** X14. Whatever the frame, the body text put into a payload holds no angle
    bracket and no quote, single or double, and has at most 3000
    characters. *)
Theorem content_is_clean_and_bounded (data : frame) :
  (forall c, In c (content_of data) ->
             c <> c_lt /\ c <> c_gt /\ c <> c_quot /\ c <> c_apos)
  /\ length (content_of data) <= 3000.
Proof.
  unfold content_of. split.
  - intros c H. rewrite html_escape_flat_map in H.
    apply in_flat_map in H as (x & _ & Hx).
    eapply escape_char_clean; eassumption.
  - pose proof (html_escape_length_le
                  (firstn 500 (get_default (message data) []))) as L.
    pose proof (firstn_le_length 500 (get_default (message data) [])) as F.
    lia.
Qed.

(** * Further properties: [file_upload.py] *)

(** ** Splitting a name *)

Lemma split_not_nil sep s : FileUpload.split sep s <> [].
Proof.
  destruct s as [|c r]; simpl; [discriminate|].
  destruct (N.eqb c sep); [discriminate|].
  destruct (FileUpload.split sep r); discriminate.
Qed.

Lemma join_cons_nonempty sep piece rest :
  rest <> [] ->
  FileUpload.join sep (piece :: rest)
  = piece ++ sep :: FileUpload.join sep rest.
Proof. destruct rest; [congruence|reflexivity]. Qed.

Lemma join_cons_char sep c piece pieces :
  FileUpload.join sep ((c :: piece) :: pieces)
  = c :: FileUpload.join sep (piece :: pieces).
Proof. destruct pieces; reflexivity. Qed.

(** Joining the pieces with the separator gives the string back. *)
Lemma join_split sep s : FileUpload.join sep (FileUpload.split sep s) = s.
Proof.
  induction s as [|c r IH]; [reflexivity|].
  cbn [FileUpload.split]. destruct (N.eqb c sep) eqn:E.
  - apply N.eqb_eq in E. subst c.
    rewrite join_cons_nonempty by apply split_not_nil.
    simpl. now rewrite IH.
  - destruct (FileUpload.split sep r) as [|piece pieces] eqn:S.
    + now destruct (split_not_nil sep r).
    + rewrite join_cons_char. f_equal. exact IH.
Qed.

Lemma split_pieces_without_sep sep s piece :
  In piece (FileUpload.split sep s) -> ~ In sep piece.
Proof.
  revert piece. induction s as [|c r IH]; intros piece.
  - simpl. intros [<-|[]] [].
  - cbn [FileUpload.split]. destruct (N.eqb c sep) eqn:E.
    + intros [<-|H]; [intros []|now apply IH].
    + apply N.eqb_neq in E.
      destruct (FileUpload.split sep r) as [|p ps] eqn:S.
      * now destruct (split_not_nil sep r).
      * intros [<-|H].
        -- intros [->|Hin]; [congruence|].
           apply (IH p); [now left|exact Hin].
        -- apply IH. now right.
Qed.

Lemma split_without_sep sep s :
  ~ In sep s -> FileUpload.split sep s = [s].
Proof.
  induction s as [|c r IH]; [reflexivity|].
  intros H. cbn [FileUpload.split].
  destruct (N.eqb c sep) eqn:E.
  - apply N.eqb_eq in E. subst. exfalso. apply H. now left.
  - rewrite IH; [reflexivity|]. intros Hin. apply H. now right.
Qed.

Lemma last_cons_ne {A} (x : A) (l : list A) (d : A) :
  l <> [] -> last (x :: l) d = last l d.
Proof. destruct l; [congruence|reflexivity]. Qed.

Lemma last_In {A} (l : list A) (d : A) : l <> [] -> In (last l d) l.
Proof.
  induction l as [|x l IH]; [congruence|]. intros _.
  destruct l as [|y l]; [now left|].
  right. rewrite last_cons_ne by discriminate. apply IH. discriminate.
Qed.

Lemma last_piece_suffix sep s :
  exists stem,
    s = stem ++ FileUpload.last_piece (FileUpload.split sep s)
    /\ (stem = [] \/ exists stem', stem = stem' ++ [sep]).
Proof.
  unfold FileUpload.last_piece.
  induction s as [|c r IH].
  - exists []. split; [reflexivity|now left].
  - destruct IH as (stem & Hs & Hstem).
    pose proof (split_not_nil sep r) as Hne.
    pose proof (join_split sep r) as J.
    cbn [FileUpload.split]. destruct (N.eqb c sep) eqn:E.
    + apply N.eqb_eq in E. subst c.
      rewrite last_cons_ne by exact Hne.
      exists (sep :: stem). split.
      * cbn [app]. f_equal. exact Hs.
      * right. destruct Hstem as [->|(stem' & ->)].
        -- now exists [].
        -- now exists (sep :: stem').
    + destruct (FileUpload.split sep r) as [|p ps] eqn:S; [congruence|].
      destruct ps as [|q qs].
      * exists []. split; [|now left].
        cbn [last app]. cbn [FileUpload.join] in J. now subst p.
      * rewrite last_cons_ne by discriminate.
        rewrite last_cons_ne in Hs by discriminate.
        exists (c :: stem). split.
        -- cbn [app]. f_equal. exact Hs.
        -- right. destruct Hstem as [->|(stem' & ->)].
           ++ exfalso. cbn [app] in Hs.
              rewrite join_cons_nonempty in J by discriminate.
              assert (In sep r) as Hin
                  by (rewrite <- J, in_app_iff; right; now left).
              apply (@split_pieces_without_sep sep r (last (q :: qs) []));
                [|now rewrite <- Hs].
              rewrite S. right. apply last_In. discriminate.
           ++ now exists (c :: stem').
Qed.

(** X16. The format passed to [process_image] is what follows the last dot of
    the file name: it holds no dot, the file name ends with it, what
    precedes it is empty or ends with a dot, and a name without any dot is
    taken whole. *)
Theorem format_type_is_what_follows_the_last_dot (name : str) :
  ~ In FileUpload.c_dot
       (FileUpload.last_piece (FileUpload.split FileUpload.c_dot name))
  /\ (exists stem,
         name
         = stem
           ++ FileUpload.last_piece (FileUpload.split FileUpload.c_dot name)
         /\ (stem = [] \/ exists stem', stem = stem' ++ [FileUpload.c_dot]))
  /\ (~ In FileUpload.c_dot name ->
      FileUpload.last_piece (FileUpload.split FileUpload.c_dot name) = name).
Proof.
  split; [|split].
  - apply (@split_pieces_without_sep FileUpload.c_dot name).
    unfold FileUpload.last_piece.
    pose proof (split_not_nil FileUpload.c_dot name) as Hn.
    now apply last_In.
  - apply last_piece_suffix.
  - intros H. now rewrite split_without_sep.
Qed.

(** ** Checking an upload *)

Lemma allowed_type_iff (t : str) :
  str_mem t FileUpload.ALLOWED_IMAGE_TYPES = true
  <-> t = py "image/jpeg" \/ t = py "image/png".
Proof.
  unfold str_mem, FileUpload.ALLOWED_IMAGE_TYPES. cbn [existsb].
  rewrite !orb_true_iff, !str_eqb_eq. intuition discriminate.
Qed.

(** X15. The size is checked before the type. The answer is 413 exactly when
    the file is larger than the limit, 400 exactly when it is within the
    limit and its type is neither [image/jpeg] nor [image/png], and 200
    otherwise; a file of exactly the limit passes. A refused upload
    schedules nothing; an accepted one schedules one call of
    [process_image], after those already scheduled, on the whole content
    with the requested dimensions. *)
Theorem upload_check_outcomes limit tasks file width height :
  (FileUpload.status_of
     (fst (FileUpload.validate_file_upload limit tasks file width height))
   = 413%N
   <-> (limit < FileUpload.size file)%N)
  /\ (FileUpload.status_of
        (fst (FileUpload.validate_file_upload limit tasks file width height))
      = 400%N
      <-> (FileUpload.size file <= limit)%N
          /\ FileUpload.content_type file <> py "image/jpeg"
          /\ FileUpload.content_type file <> py "image/png")
  /\ (FileUpload.status_of
        (fst (FileUpload.validate_file_upload limit tasks file width height))
      = 200%N
      <-> (FileUpload.size file <= limit)%N
          /\ (FileUpload.content_type file = py "image/jpeg"
              \/ FileUpload.content_type file = py "image/png"))
  /\ (FileUpload.status_of
        (fst (FileUpload.validate_file_upload limit tasks file width height))
      <> 200%N ->
      snd (FileUpload.validate_file_upload limit tasks file width height)
      = tasks)
  /\ (FileUpload.status_of
        (fst (FileUpload.validate_file_upload limit tasks file width height))
      = 200%N ->
      snd (FileUpload.validate_file_upload limit tasks file width height)
      = tasks
        ++ [FileUpload.mkCall
              (FileUpload.content file)
              (FileUpload.last_piece
                 (FileUpload.split FileUpload.c_dot
                    (FileUpload.filename file)))
              (width, height)]).
Proof.
  unfold FileUpload.validate_file_upload.
  destruct (N.ltb limit (FileUpload.size file)) eqn:L.
  - apply N.ltb_lt in L. cbn [fst snd FileUpload.status_of].
    repeat split; intros; try congruence; try lia; tauto.
  - apply N.ltb_ge in L.
    destruct (str_mem (FileUpload.content_type file)
                FileUpload.ALLOWED_IMAGE_TYPES) eqn:T;
      cbn [negb fst snd FileUpload.status_of].
    + apply allowed_type_iff in T.
      repeat split; intros; try congruence; try lia; tauto.
    + assert (FileUpload.content_type file <> py "image/jpeg"
              /\ FileUpload.content_type file <> py "image/png") as N.
      { split; intros E;
          assert (str_mem (FileUpload.content_type file)
                    FileUpload.ALLOWED_IMAGE_TYPES = true) as A
            by (apply allowed_type_iff; tauto);
          congruence. }
      repeat split; intros; try congruence; try lia; tauto.
Qed.

(** ** Uploading raw bytes *)

Lemma read_write_same fs name data :
  FileUpload.read_file (FileUpload.write_file fs name data) name = Some data.
Proof.
  induction fs as [|[n d] fs IH]; simpl.
  - now rewrite str_eqb_refl.
  - destruct (str_eqb n name) eqn:E; simpl; now rewrite E.
Qed.

Lemma read_write_other fs name other data :
  other <> name ->
  FileUpload.read_file (FileUpload.write_file fs name data) other
  = FileUpload.read_file fs other.
Proof.
  intros Hne. induction fs as [|[n d] fs IH]; simpl.
  - assert (str_eqb name other = false) as ->
        by (apply str_eqb_neq; congruence).
    reflexivity.
  - destruct (str_eqb n name) eqn:E; simpl.
    + apply str_eqb_eq in E. subst n.
      assert (str_eqb name other = false) as ->
          by (apply str_eqb_neq; congruence).
      reflexivity.
    + destruct (str_eqb n other); [reflexivity|exact IH].
Qed.

(** X17. [upload_bytes_file] opens its file for writing before it looks at the
    parameter: with a file in the request, the file then holds exactly the
    uploaded bytes and the answer is their number; without one, the write
    raises and the file is left empty, whatever it held before. No other
    file is touched in either case. *)
Theorem upload_bytes_truncates_before_writing fs upload :
  (forall data, upload = Some data ->
     fst (FileUpload.upload_bytes_file fs upload)
     = FileUpload.FileSize (length data)
     /\ FileUpload.read_file (snd (FileUpload.upload_bytes_file fs upload))
          (py "picture_from_bytes.jpg") = Some data)
  /\ (upload = None ->
      fst (FileUpload.upload_bytes_file fs upload) = FileUpload.TypeError
      /\ FileUpload.read_file (snd (FileUpload.upload_bytes_file fs upload))
           (py "picture_from_bytes.jpg") = Some [])
  /\ (forall other, other <> py "picture_from_bytes.jpg" ->
      FileUpload.read_file (snd (FileUpload.upload_bytes_file fs upload)) other
      = FileUpload.read_file fs other).
Proof.
  unfold FileUpload.upload_bytes_file. split; [|split].
  - intros data ->. cbn [fst snd]. split; [reflexivity|].
    apply read_write_same.
  - intros ->. cbn [fst snd]. split; [reflexivity|].
    apply read_write_same.
  - intros other Hne. destruct upload; cbn [snd];
      now rewrite ?read_write_other by assumption.
Qed.

(** * Further properties: [json_answer.py] *)

(** ** Rows and ids *)

Lemma find_event_None rows i :
  JsonAnswer.find_event rows i = None <-> ~ In i (map fst rows).
Proof.
  induction rows as [|[j e] rows IH]; simpl; [tauto|].
  destruct (Z.eqb j i) eqn:E.
  - apply Z.eqb_eq in E. split; [discriminate|tauto].
  - apply Z.eqb_neq in E. rewrite IH. tauto.
Qed.

Lemma find_event_app_new rows i e :
  ~ In i (map fst rows) ->
  JsonAnswer.find_event (rows ++ [(i, e)]) i = Some e.
Proof.
  induction rows as [|[j x] rows IH]; simpl; intros H.
  - rewrite Z.eqb_refl. reflexivity.
  - destruct (Z.eqb j i) eqn:E.
    + apply Z.eqb_eq in E. tauto.
    + apply IH. tauto.
Qed.

Lemma find_event_app_old rows i j e :
  j <> i ->
  JsonAnswer.find_event (rows ++ [(i, e)]) j = JsonAnswer.find_event rows j.
Proof.
  intros Hne. induction rows as [|[k x] rows IH]; simpl.
  - apply Z.eqb_neq in Hne. rewrite Z.eqb_sym, Hne. reflexivity.
  - destruct (Z.eqb k j); [reflexivity|exact IH].
Qed.

Lemma find_event_delete_same rows i :
  JsonAnswer.find_event (JsonAnswer.delete_event rows i) i = None.
Proof.
  apply find_event_None. unfold JsonAnswer.delete_event.
  intros H. apply in_map_iff in H as ([j e] & Hj & Hin).
  apply filter_In in Hin as [_ Hf]. simpl in *. subst j.
  rewrite Z.eqb_refl in Hf. discriminate Hf.
Qed.

Lemma find_event_delete_other rows i j :
  j <> i ->
  JsonAnswer.find_event (JsonAnswer.delete_event rows i) j
  = JsonAnswer.find_event rows j.
Proof.
  intros Hne. unfold JsonAnswer.delete_event.
  induction rows as [|[k x] rows IH]; simpl; [reflexivity|].
  destruct (Z.eqb k i) eqn:E; simpl.
  - apply Z.eqb_eq in E. subst k.
    assert (Z.eqb i j = false) as -> by (apply Z.eqb_neq; congruence).
    exact IH.
  - destruct (Z.eqb k j); [reflexivity|exact IH].
Qed.

Lemma find_event_update rows i j f :
  JsonAnswer.find_event (JsonAnswer.update_event rows i f) j
  = if Z.eqb i j then option_map f (JsonAnswer.find_event rows j)
    else JsonAnswer.find_event rows j.
Proof.
  unfold JsonAnswer.update_event.
  induction rows as [|[k x] rows IH]; simpl.
  - destruct (Z.eqb i j); reflexivity.
  - destruct (Z.eqb k i) eqn:E; simpl.
    + apply Z.eqb_eq in E. subst k.
      destruct (Z.eqb i j); [reflexivity|exact IH].
    + destruct (Z.eqb k j) eqn:F; [|exact IH].
      apply Z.eqb_eq in F. subst k.
      rewrite Z.eqb_sym, E. reflexivity.
Qed.

(** The three outcomes of the parametrised [SELECT]. *)
Lemma select_event_found rows i e :
  JsonAnswer.find_event rows i = Some e ->
  JsonAnswer.select_event rows i = JsonAnswer.Row e.
Proof. intros H. unfold JsonAnswer.select_event. rewrite H. reflexivity. Qed.

Lemma select_event_absent rows i :
  JsonAnswer.find_event rows i = None ->
  JsonAnswer.select_event rows i
  = if JsonAnswer.in_int64 i then JsonAnswer.NoRow
    else JsonAnswer.OverflowError.
Proof. intros H. unfold JsonAnswer.select_event. rewrite H. reflexivity. Qed.

Lemma select_event_row rows i e :
  JsonAnswer.select_event rows i = JsonAnswer.Row e ->
  JsonAnswer.find_event rows i = Some e.
Proof.
  unfold JsonAnswer.select_event.
  destruct (JsonAnswer.find_event rows i) as [x|].
  - intros [= ->]. reflexivity.
  - destruct (JsonAnswer.in_int64 i); intros H; discriminate H.
Qed.

Lemma ids_of_update {A} (rows : list (Z * A)) i (f : A -> A) :
  map fst (map (fun row => if Z.eqb (fst row) i
                           then (fst row, f (snd row)) else row) rows)
  = map fst rows.
Proof.
  rewrite map_map. apply map_ext. intros [k x]. simpl.
  destruct (Z.eqb k i); reflexivity.
Qed.

Lemma ids_of_delete rows i x :
  In x (map fst (JsonAnswer.delete_event rows i)) -> In x (map fst rows).
Proof.
  unfold JsonAnswer.delete_event. intros H.
  apply in_map_iff in H as (row & <- & Hin).
  apply filter_In in Hin as [Hin _]. apply in_map. exact Hin.
Qed.

Lemma NoDup_ids_delete rows i :
  NoDup (map fst rows) ->
  NoDup (map fst (JsonAnswer.delete_event rows i)).
Proof.
  unfold JsonAnswer.delete_event.
  induction rows as [|[k x] rows IH]; simpl; intros H; [constructor|].
  inversion H as [|? ? Hnin Hnd]; subst.
  destruct (Z.eqb k i); simpl; [apply IH; exact Hnd|].
  constructor; [|apply IH; exact Hnd].
  intros Hin. apply Hnin. eapply ids_of_delete. exact Hin.
Qed.

(** ** Deleting an event *)

Lemma remove_event_present event_id e db :
  JsonAnswer.find_event (JsonAnswer.events db) event_id = Some e ->
  JsonAnswer.remove_event event_id db
  = (JsonAnswer.Status 200 (py "удалено успешно"),
     JsonAnswer.set_events
       (JsonAnswer.delete_event (JsonAnswer.events db) event_id) db).
Proof.
  intros H. unfold JsonAnswer.remove_event.
  rewrite (select_event_found _ _ H). reflexivity.
Qed.

Lemma remove_event_absent event_id db :
  JsonAnswer.find_event (JsonAnswer.events db) event_id = None ->
  JsonAnswer.remove_event event_id db
  = ((if JsonAnswer.in_int64 event_id
      then JsonAnswer.HTTPException 404 JsonAnswer.not_found
      else JsonAnswer.overflow), db).
Proof.
  intros H. unfold JsonAnswer.remove_event.
  rewrite (select_event_absent _ _ H).
  destruct (JsonAnswer.in_int64 event_id); reflexivity.
Qed.

Lemma modify_event_present event_id e data db :
  JsonAnswer.find_event (JsonAnswer.events db) event_id = Some e ->
  JsonAnswer.modify_event event_id data db
  = (JsonAnswer.Event 200 event_id data,
     JsonAnswer.set_events
       (JsonAnswer.update_event (JsonAnswer.events db) event_id
          (fun _ => data)) db).
Proof.
  intros H. unfold JsonAnswer.modify_event.
  rewrite (select_event_found _ _ H). reflexivity.
Qed.

Lemma modify_event_absent event_id data db :
  JsonAnswer.find_event (JsonAnswer.events db) event_id = None ->
  JsonAnswer.modify_event event_id data db
  = ((if JsonAnswer.in_int64 event_id
      then JsonAnswer.HTTPException 404 JsonAnswer.not_found
      else JsonAnswer.overflow), db).
Proof.
  intros H. unfold JsonAnswer.modify_event.
  rewrite (select_event_absent _ _ H).
  destruct (JsonAnswer.in_int64 event_id); reflexivity.
Qed.

Lemma fetch_single_event_present event_id e db :
  JsonAnswer.find_event (JsonAnswer.events db) event_id = Some e ->
  JsonAnswer.fetch_single_event event_id db
  = (JsonAnswer.Event 200 event_id e, db).
Proof.
  intros H. unfold JsonAnswer.fetch_single_event.
  rewrite (select_event_found _ _ H). reflexivity.
Qed.

Lemma fetch_single_event_absent event_id db :
  JsonAnswer.find_event (JsonAnswer.events db) event_id = None ->
  JsonAnswer.fetch_single_event event_id db
  = ((if JsonAnswer.in_int64 event_id
      then JsonAnswer.HTTPException 404 JsonAnswer.not_found
      else JsonAnswer.overflow), db).
Proof.
  intros H. unfold JsonAnswer.fetch_single_event.
  rewrite (select_event_absent _ _ H).
  destruct (JsonAnswer.in_int64 event_id); reflexivity.
Qed.

(** X18. Deleting an event that exists answers 200; afterwards, its id being
    one that SQLite can bind, fetching, modifying or deleting that id
    answers 404 and every other event is still what it was. Deleting an id
    that no event has changes nothing and answers 404, or 500 when the id
    does not fit 64 bits and binding it raises [OverflowError]. *)
Theorem removed_event_is_gone event_id data db :
  (In event_id (map fst (JsonAnswer.events db)) ->
   JsonAnswer.in_int64 event_id = true ->
   JsonAnswer.status_of (fst (JsonAnswer.remove_event event_id db)) = 200%N
   /\ fst (JsonAnswer.fetch_single_event event_id
             (snd (JsonAnswer.remove_event event_id db)))
      = JsonAnswer.HTTPException 404 JsonAnswer.not_found
   /\ JsonAnswer.modify_event event_id data
        (snd (JsonAnswer.remove_event event_id db))
      = (JsonAnswer.HTTPException 404 JsonAnswer.not_found,
         snd (JsonAnswer.remove_event event_id db))
   /\ JsonAnswer.remove_event event_id
        (snd (JsonAnswer.remove_event event_id db))
      = (JsonAnswer.HTTPException 404 JsonAnswer.not_found,
         snd (JsonAnswer.remove_event event_id db))
   /\ forall other, other <> event_id ->
        JsonAnswer.find_event
          (JsonAnswer.events (snd (JsonAnswer.remove_event event_id db)))
          other
        = JsonAnswer.find_event (JsonAnswer.events db) other)
  /\ (~ In event_id (map fst (JsonAnswer.events db)) ->
      JsonAnswer.remove_event event_id db
      = ((if JsonAnswer.in_int64 event_id
          then JsonAnswer.HTTPException 404 JsonAnswer.not_found
          else JsonAnswer.overflow), db)).
Proof.
  split.
  - intros Hin Hrange.
    destruct (JsonAnswer.find_event (JsonAnswer.events db) event_id)
      as [e|] eqn:S.
    2:{ apply find_event_None in S. contradiction. }
    rewrite (remove_event_present _ _ S).
    cbn [fst snd JsonAnswer.status_of].
    assert (JsonAnswer.find_event
              (JsonAnswer.events
                 (JsonAnswer.set_events
                    (JsonAnswer.delete_event (JsonAnswer.events db) event_id)
                    db)) event_id = None) as G
        by (cbn [JsonAnswer.set_events JsonAnswer.events];
            apply find_event_delete_same).
    rewrite (fetch_single_event_absent _ _ G),
      (modify_event_absent _ data _ G), (remove_event_absent _ _ G), Hrange.
    cbn [fst]. repeat split.
    intros other Hne. cbn [JsonAnswer.set_events JsonAnswer.events].
    apply find_event_delete_other. exact Hne.
  - intros Hout. apply remove_event_absent.
    apply find_event_None. exact Hout.
Qed.

(** ** Ids are not reused *)

Lemma ids_ok_update rows seq i f :
  JsonAnswer.ids_ok rows seq ->
  JsonAnswer.ids_ok (JsonAnswer.update_event rows i f) seq.
Proof.
  unfold JsonAnswer.ids_ok, JsonAnswer.update_event.
  rewrite ids_of_update. intros H. exact H.
Qed.

Lemma ids_ok_delete rows seq i :
  JsonAnswer.ids_ok rows seq ->
  JsonAnswer.ids_ok (JsonAnswer.delete_event rows i) seq.
Proof.
  intros [Hnd Hle]. split; [apply NoDup_ids_delete; exact Hnd|].
  intros k Hk. apply Hle. eapply ids_of_delete. exact Hk.
Qed.

(** X19. With the ids of [events] pairwise distinct and bounded by the
    sequence, this stays so after adding, modifying, rescheduling and
    deleting; and the id given to a new event is larger than every id the
    table holds or held, so the id of a deleted event is not handed out
    again. *)
Theorem event_ids_are_never_reused today event_id new_date data db :
  JsonAnswer.ids_ok (JsonAnswer.events db) (JsonAnswer.events_seq db) ->
  (forall db',
      db' = snd (JsonAnswer.add_new_event data db)
      \/ db' = snd (JsonAnswer.modify_event event_id data db)
      \/ db' = snd (JsonAnswer.remove_event event_id db)
      \/ db' = snd (JsonAnswer.change_event_date today event_id new_date db) ->
      JsonAnswer.ids_ok (JsonAnswer.events db') (JsonAnswer.events_seq db')
      /\ (JsonAnswer.events_seq db <= JsonAnswer.events_seq db')%Z)
  /\ fst (JsonAnswer.add_new_event data
            (snd (JsonAnswer.remove_event event_id db)))
     = JsonAnswer.Event 201 (JsonAnswer.events_seq db + 1) data
  /\ (forall i, In i (map fst (JsonAnswer.events db)) ->
                (i < JsonAnswer.events_seq db + 1)%Z).
Proof.
  intros Hok. split; [|split].
  - intros db' [-> | [-> | [-> | ->]]].
    + destruct Hok as [Hnd Hle].
      cbn [JsonAnswer.add_new_event snd JsonAnswer.events
           JsonAnswer.events_seq].
      split; [|lia]. split.
      * rewrite map_app. cbn [map fst].
        apply NoDup_app; [assumption|repeat constructor; simpl; tauto|].
        intros x Hx [<-|[]]. apply Hle in Hx. lia.
      * intros i Hi. rewrite map_app, in_app_iff in Hi. cbn in Hi.
        destruct Hi as [Hi|[<-|[]]]; [apply Hle in Hi|]; lia.
    + unfold JsonAnswer.modify_event.
      destruct (JsonAnswer.select_event (JsonAnswer.events db) event_id);
        cbn [snd JsonAnswer.set_events JsonAnswer.events
             JsonAnswer.events_seq].
      * split; [apply ids_ok_update; exact Hok|lia].
      * split; [exact Hok|lia].
      * split; [exact Hok|lia].
    + unfold JsonAnswer.remove_event.
      destruct (JsonAnswer.select_event (JsonAnswer.events db) event_id);
        cbn [snd JsonAnswer.set_events JsonAnswer.events
             JsonAnswer.events_seq].
      * split; [apply ids_ok_delete; exact Hok|lia].
      * split; [exact Hok|lia].
      * split; [exact Hok|lia].
    + unfold JsonAnswer.change_event_date.
      destruct (JsonAnswer.date_ltb new_date today);
        [cbn [snd]; split; [exact Hok|lia]|].
      destruct (JsonAnswer.select_event (JsonAnswer.events db) event_id);
        cbn [snd JsonAnswer.set_events JsonAnswer.events
             JsonAnswer.events_seq].
      * split; [apply ids_ok_update; exact Hok|lia].
      * split; [exact Hok|lia].
      * split; [exact Hok|lia].
  - unfold JsonAnswer.remove_event.
    destruct (JsonAnswer.select_event (JsonAnswer.events db) event_id);
      reflexivity.
  - intros i Hi. apply Hok in Hi. lia.
Qed.

Lemma two_events_ids_ok :
  JsonAnswer.ids_ok (JsonAnswer.events two_events)
                    (JsonAnswer.events_seq two_events).
Proof.
  split.
  - repeat constructor; simpl; intuition discriminate.
  - simpl. intros i [<-|[<-|[]]]; lia.
Defined.

Lemma event_ids_are_never_reused_witness :
  fst (JsonAnswer.add_new_event
         (JsonAnswer.mkEvent (py "Quiz") (JsonAnswer.mkDate 2031 1 2)
            (py "Room 2"))
         (snd (JsonAnswer.remove_event 3 two_events)))
  = JsonAnswer.Event 201 (JsonAnswer.events_seq two_events + 1)
      (JsonAnswer.mkEvent (py "Quiz") (JsonAnswer.mkDate 2031 1 2)
         (py "Room 2")).
Proof.
  exact (proj1 (proj2
    (@event_ids_are_never_reused
       (JsonAnswer.mkDate 2030 1 1) 3 (JsonAnswer.mkDate 2031 1 2)
       (JsonAnswer.mkEvent (py "Quiz") (JsonAnswer.mkDate 2031 1 2)
          (py "Room 2"))
       two_events two_events_ids_ok))).
Defined.

(** ** Adding, then fetching *)

(** X20. A new event can be fetched under the id that was returned for it, with
    the data it was added with, and the events that existed before are
    still fetched as before. *)
Theorem added_event_can_be_fetched data db :
  JsonAnswer.ids_ok (JsonAnswer.events db) (JsonAnswer.events_seq db) ->
  fst (JsonAnswer.add_new_event data db)
  = JsonAnswer.Event 201 (JsonAnswer.events_seq db + 1) data
  /\ JsonAnswer.fetch_single_event (JsonAnswer.events_seq db + 1)
       (snd (JsonAnswer.add_new_event data db))
     = (JsonAnswer.Event 200 (JsonAnswer.events_seq db + 1) data,
        snd (JsonAnswer.add_new_event data db))
  /\ (forall other, In other (map fst (JsonAnswer.events db)) ->
        fst (JsonAnswer.fetch_single_event other
               (snd (JsonAnswer.add_new_event data db)))
        = fst (JsonAnswer.fetch_single_event other db)).
Proof.
  intros [Hnd Hle].
  assert (~ In (JsonAnswer.events_seq db + 1)%Z
              (map fst (JsonAnswer.events db))) as Hnew
      by (intros H; apply Hle in H; lia).
  split; [reflexivity|]. split.
  - apply fetch_single_event_present.
    cbn [JsonAnswer.add_new_event snd JsonAnswer.events].
    apply find_event_app_new. exact Hnew.
  - intros other Hin.
    destruct (JsonAnswer.find_event (JsonAnswer.events db) other)
      as [e|] eqn:S.
    2:{ apply find_event_None in S. contradiction. }
    rewrite (fetch_single_event_present _ _ S).
    rewrite (@fetch_single_event_present other e); [reflexivity|].
    cbn [JsonAnswer.add_new_event snd JsonAnswer.events].
    rewrite find_event_app_old by (intros ->; contradiction).
    exact S.
Qed.

Lemma added_event_can_be_fetched_witness :
  fst (JsonAnswer.add_new_event
         (JsonAnswer.mkEvent (py "Quiz") (JsonAnswer.mkDate 2031 1 2)
            (py "Room 2")) two_events)
  = JsonAnswer.Event 201 (JsonAnswer.events_seq two_events + 1)
      (JsonAnswer.mkEvent (py "Quiz") (JsonAnswer.mkDate 2031 1 2)
         (py "Room 2"))
  /\ JsonAnswer.fetch_single_event (JsonAnswer.events_seq two_events + 1)
       (snd (JsonAnswer.add_new_event
               (JsonAnswer.mkEvent (py "Quiz") (JsonAnswer.mkDate 2031 1 2)
                  (py "Room 2")) two_events))
     = (JsonAnswer.Event 200 (JsonAnswer.events_seq two_events + 1)
          (JsonAnswer.mkEvent (py "Quiz") (JsonAnswer.mkDate 2031 1 2)
             (py "Room 2")),
        snd (JsonAnswer.add_new_event
               (JsonAnswer.mkEvent (py "Quiz") (JsonAnswer.mkDate 2031 1 2)
                  (py "Room 2")) two_events))
  /\ (forall other, In other (map fst (JsonAnswer.events two_events)) ->
        fst (JsonAnswer.fetch_single_event other
               (snd (JsonAnswer.add_new_event
                       (JsonAnswer.mkEvent (py "Quiz")
                          (JsonAnswer.mkDate 2031 1 2) (py "Room 2"))
                       two_events)))
        = fst (JsonAnswer.fetch_single_event other two_events)).
Proof.
  exact (@added_event_can_be_fetched
           (JsonAnswer.mkEvent (py "Quiz") (JsonAnswer.mkDate 2031 1 2)
              (py "Room 2"))
           two_events two_events_ids_ok).
Defined.

(** ** Modifying an event *)

(** X21. Modifying an event that exists answers 200 with the new data under the
    same id; the event is then fetched with the new data, the other events
    and the order of the ids are unchanged. Modifying an id that no event
    has changes nothing and answers 404, or 500 when the id does not fit
    64 bits and binding it raises [OverflowError]. *)
Theorem modified_event_is_replaced event_id data db :
  (In event_id (map fst (JsonAnswer.events db)) ->
   fst (JsonAnswer.modify_event event_id data db)
   = JsonAnswer.Event 200 event_id data
   /\ fst (JsonAnswer.fetch_single_event event_id
             (snd (JsonAnswer.modify_event event_id data db)))
      = JsonAnswer.Event 200 event_id data
   /\ map fst (JsonAnswer.events
                 (snd (JsonAnswer.modify_event event_id data db)))
      = map fst (JsonAnswer.events db)
   /\ forall other, other <> event_id ->
        JsonAnswer.find_event
          (JsonAnswer.events
             (snd (JsonAnswer.modify_event event_id data db))) other
        = JsonAnswer.find_event (JsonAnswer.events db) other)
  /\ (~ In event_id (map fst (JsonAnswer.events db)) ->
      JsonAnswer.modify_event event_id data db
      = ((if JsonAnswer.in_int64 event_id
          then JsonAnswer.HTTPException 404 JsonAnswer.not_found
          else JsonAnswer.overflow), db)).
Proof.
  split.
  - intros Hin.
    destruct (JsonAnswer.find_event (JsonAnswer.events db) event_id)
      as [e|] eqn:S.
    2:{ apply find_event_None in S. contradiction. }
    rewrite (modify_event_present _ data _ S).
    cbn [fst snd JsonAnswer.set_events JsonAnswer.events].
    split; [reflexivity|]. split; [|split].
    + rewrite (@fetch_single_event_present event_id data); [reflexivity|].
      cbn [JsonAnswer.set_events JsonAnswer.events].
      rewrite find_event_update, Z.eqb_refl, S. reflexivity.
    + exact (@ids_of_update _ (JsonAnswer.events db) event_id
               (fun _ => data)).
    + intros other Hne. rewrite find_event_update.
      assert (Z.eqb event_id other = false) as ->
          by (apply Z.eqb_neq; congruence).
      reflexivity.
  - intros Hout. apply modify_event_absent.
    apply find_event_None. exact Hout.
Qed.

(** ** Rescheduling *)

Lemma date_ltb_irrefl d : JsonAnswer.date_ltb d d = false.
Proof.
  unfold JsonAnswer.date_ltb. rewrite !N.ltb_irrefl, !N.eqb_refl.
  reflexivity.
Qed.

(** X22. The date is checked before the event is looked up: a date before
    today answers 400 and changes nothing, whatever the id, and today
    itself is not refused. For a date that is not past, an id that no
    event has changes nothing and answers 404, or 500 when the id does not
    fit 64 bits and binding it raises [OverflowError]; an existing event
    keeps its title and location and takes the new date, and the other
    events are unchanged. *)
Theorem reschedule_checks_date_first today event_id new_date db :
  (JsonAnswer.date_ltb new_date today = true ->
   JsonAnswer.change_event_date today event_id new_date db
   = (JsonAnswer.HTTPException 400
        (py "Дата не может быть в прошедшем времени."), db))
  /\ JsonAnswer.status_of
       (fst (JsonAnswer.change_event_date today event_id today db))
     <> 400%N
  /\ (JsonAnswer.date_ltb new_date today = false ->
      ~ In event_id (map fst (JsonAnswer.events db)) ->
      JsonAnswer.change_event_date today event_id new_date db
      = ((if JsonAnswer.in_int64 event_id
          then JsonAnswer.HTTPException 404 JsonAnswer.not_found
          else JsonAnswer.overflow), db))
  /\ (forall event,
        JsonAnswer.date_ltb new_date today = false ->
        JsonAnswer.find_event (JsonAnswer.events db) event_id
        = Some event ->
        fst (JsonAnswer.change_event_date today event_id new_date db)
        = JsonAnswer.Event 200 event_id
            (JsonAnswer.mkEvent (JsonAnswer.title event) new_date
               (JsonAnswer.location event))
        /\ JsonAnswer.find_event
             (JsonAnswer.events
                (snd (JsonAnswer.change_event_date today event_id new_date
                        db))) event_id
           = Some (JsonAnswer.mkEvent (JsonAnswer.title event) new_date
                     (JsonAnswer.location event))
        /\ forall other, other <> event_id ->
             JsonAnswer.find_event
               (JsonAnswer.events
                  (snd (JsonAnswer.change_event_date today event_id
                          new_date db))) other
             = JsonAnswer.find_event (JsonAnswer.events db) other).
Proof.
  split; [|split; [|split]].
  - intros H. unfold JsonAnswer.change_event_date. rewrite H. reflexivity.
  - unfold JsonAnswer.change_event_date. rewrite date_ltb_irrefl.
    destruct (JsonAnswer.select_event (JsonAnswer.events db) event_id);
      cbn [fst JsonAnswer.status_of JsonAnswer.overflow];
      intros H; discriminate H.
  - intros H Hout. apply find_event_None in Hout.
    unfold JsonAnswer.change_event_date.
    rewrite H, (select_event_absent _ _ Hout).
    destruct (JsonAnswer.in_int64 event_id); reflexivity.
  - intros event H S. unfold JsonAnswer.change_event_date.
    rewrite H, (select_event_found _ _ S).
    cbn [fst snd JsonAnswer.set_events JsonAnswer.events].
    split; [reflexivity|]. split.
    + rewrite find_event_update, Z.eqb_refl, S. reflexivity.
    + intros other Hne. rewrite find_event_update.
      assert (Z.eqb event_id other = false) as ->
          by (apply Z.eqb_neq; congruence).
      reflexivity.
Qed.

(** ** Accounts and attendance *)

Lemma select_user_id_None rows mail :
  JsonAnswer.select_user_id rows mail = None
  <-> ~ In mail (map (fun row => JsonAnswer.email (snd row)) rows).
Proof.
  induction rows as [|[i u] rows IH]; simpl; [tauto|].
  destruct (str_eqb (JsonAnswer.email u) mail) eqn:E.
  - apply str_eqb_eq in E. split; [discriminate|tauto].
  - apply str_eqb_neq in E. rewrite IH. tauto.
Qed.

Lemma select_user_id_app_new rows mail i u :
  JsonAnswer.select_user_id rows mail = None ->
  JsonAnswer.email u = mail ->
  JsonAnswer.select_user_id (rows ++ [(i, u)]) mail = Some i.
Proof.
  intros H E. induction rows as [|[j x] rows IH]; simpl in *.
  - rewrite E, str_eqb_refl. reflexivity.
  - destruct (str_eqb (JsonAnswer.email x) mail); [discriminate|].
    apply IH. exact H.
Qed.

Lemma create_user_account_new data db :
  JsonAnswer.select_user_id (JsonAnswer.users db) (JsonAnswer.email data)
  = None ->
  JsonAnswer.create_user_account data db
  = (JsonAnswer.Status 201 (py "успешно"),
     JsonAnswer.mkDb (JsonAnswer.events db) (JsonAnswer.events_seq db)
       (JsonAnswer.users db ++ [((JsonAnswer.users_seq db + 1)%Z, data)])
       (JsonAnswer.users_seq db + 1)%Z (JsonAnswer.rsvps db)).
Proof.
  intros S. unfold JsonAnswer.create_user_account. rewrite S. reflexivity.
Qed.

Lemma create_user_account_known data i db :
  JsonAnswer.select_user_id (JsonAnswer.users db) (JsonAnswer.email data)
  = Some i ->
  JsonAnswer.create_user_account data db
  = (JsonAnswer.HTTPException 400 (py "Данный email уже используется."), db).
Proof.
  intros S. unfold JsonAnswer.create_user_account. rewrite S. reflexivity.
Qed.

(** X23. Registering an address that no account has answers 201; from then on
    every registration with that address answers 400 and changes nothing,
    and the address is known to [confirm_attendance]. Registering an
    address that an account already has answers 400 and changes nothing.
    In every case the addresses of the accounts stay pairwise
    distinct. *)
Theorem registered_email_is_taken data again event_id db :
  (~ In (JsonAnswer.email data)
        (map (fun row => JsonAnswer.email (snd row)) (JsonAnswer.users db)) ->
   fst (JsonAnswer.create_user_account data db)
   = JsonAnswer.Status 201 (py "успешно")
   /\ (JsonAnswer.email again = JsonAnswer.email data ->
       JsonAnswer.create_user_account again
         (snd (JsonAnswer.create_user_account data db))
       = (JsonAnswer.HTTPException 400
            (py "Данный email уже используется."),
          snd (JsonAnswer.create_user_account data db)))
   /\ fst (JsonAnswer.confirm_attendance event_id (JsonAnswer.email data)
             (snd (JsonAnswer.create_user_account data db)))
      <> JsonAnswer.HTTPException 404 (py "Участник не найден."))
  /\ (In (JsonAnswer.email data)
         (map (fun row => JsonAnswer.email (snd row)) (JsonAnswer.users db)) ->
      JsonAnswer.create_user_account data db
      = (JsonAnswer.HTTPException 400
           (py "Данный email уже используется."), db))
  /\ (NoDup (map (fun row => JsonAnswer.email (snd row))
               (JsonAnswer.users db)) ->
      NoDup (map (fun row => JsonAnswer.email (snd row))
               (JsonAnswer.users
                  (snd (JsonAnswer.create_user_account data db))))).
Proof.
  destruct (JsonAnswer.select_user_id (JsonAnswer.users db)
              (JsonAnswer.email data)) as [i|] eqn:S.
  - assert (In (JsonAnswer.email data)
              (map (fun row => JsonAnswer.email (snd row))
                 (JsonAnswer.users db))) as Hin.
    { destruct (in_dec (list_eq_dec N.eq_dec) (JsonAnswer.email data)
                  (map (fun row => JsonAnswer.email (snd row))
                     (JsonAnswer.users db))) as [H|H]; [exact H|].
      apply select_user_id_None in H. rewrite H in S. discriminate S. }
    rewrite (create_user_account_known _ _ S). cbn [snd].
    split; [intros H; contradiction|].
    split; [intros _; reflexivity|intros H; exact H].
  - pose proof S as Hout. apply select_user_id_None in Hout.
    rewrite (create_user_account_new _ _ S).
    cbn [fst snd JsonAnswer.users].
    split; [intros _|split; [intros H; contradiction|]].
    + split; [reflexivity|]. split.
      * intros Eq. apply (@create_user_account_known again
                            (JsonAnswer.users_seq db + 1)%Z).
        cbn [JsonAnswer.users]. rewrite Eq.
        apply select_user_id_app_new; [exact S|reflexivity].
      * unfold JsonAnswer.confirm_attendance. cbn [JsonAnswer.users].
        rewrite (@select_user_id_app_new _ _ (JsonAnswer.users_seq db + 1)%Z
                   data S eq_refl).
        cbn [JsonAnswer.events JsonAnswer.rsvps].
        destruct (JsonAnswer.select_event (JsonAnswer.events db) event_id);
          [|cbn [fst]; intros H; discriminate H
           |cbn [fst]; intros H; discriminate H].
        destruct (JsonAnswer.has_rsvp (JsonAnswer.rsvps db)
                    (JsonAnswer.users_seq db + 1) event_id);
          cbn [fst]; intros H; discriminate H.
    + intros Hnd. rewrite map_app. cbn [map snd].
      apply NoDup_app; [assumption|repeat constructor; simpl; tauto|].
      intros x Hx [<-|[]]. contradiction.
Qed.

Lemma has_rsvp_app_new rows u e :
  JsonAnswer.has_rsvp (rows ++ [(u, e)]) u e = true.
Proof.
  unfold JsonAnswer.has_rsvp. rewrite existsb_app. cbn.
  rewrite !Z.eqb_refl, orb_true_r. reflexivity.
Qed.

Lemma has_rsvp_false rows u e :
  JsonAnswer.has_rsvp rows u e = false <-> ~ In (u, e) rows.
Proof.
  unfold JsonAnswer.has_rsvp.
  induction rows as [|[a b] rows IH]; simpl; [tauto|].
  rewrite orb_false_iff, IH, andb_false_iff, !Z.eqb_neq. split.
  - intros [H1 H2] [E|H]; [|tauto]. inversion E. tauto.
  - intros H. split; [|tauto].
    destruct (Z.eq_dec a u) as [->|Hn]; [|tauto].
    right. intros ->. tauto.
Qed.

(** X24. The account is looked up first: an unknown address answers 404 with
    the message for the participant, whatever the event id. A confirmation
    that answered 201 is answered 400 when repeated, without any change,
    and attendance is never recorded twice for the same account and
    event. *)
Theorem attendance_is_confirmed_once event_id mail db :
  (JsonAnswer.select_user_id (JsonAnswer.users db) mail = None ->
   JsonAnswer.confirm_attendance event_id mail db
   = (JsonAnswer.HTTPException 404 (py "Участник не найден."), db))
  /\ (JsonAnswer.status_of
        (fst (JsonAnswer.confirm_attendance event_id mail db)) = 201%N ->
      JsonAnswer.confirm_attendance event_id mail
        (snd (JsonAnswer.confirm_attendance event_id mail db))
      = (JsonAnswer.HTTPException 400
           (py "Вы уже подтвердили участие в данном мероприятии."),
         snd (JsonAnswer.confirm_attendance event_id mail db)))
  /\ (NoDup (JsonAnswer.rsvps db) ->
      NoDup (JsonAnswer.rsvps
               (snd (JsonAnswer.confirm_attendance event_id mail db)))).
Proof.
  destruct (JsonAnswer.select_user_id (JsonAnswer.users db) mail)
    as [u|] eqn:U.
  2:{ assert (JsonAnswer.confirm_attendance event_id mail db
              = (JsonAnswer.HTTPException 404 (py "Участник не найден."),
                 db)) as E
          by (unfold JsonAnswer.confirm_attendance; rewrite U; reflexivity).
      rewrite E. cbn [fst snd JsonAnswer.status_of].
      split; [intros _; reflexivity|].
      split; [intros H; discriminate H|intros H; exact H]. }
  split; [intros H; discriminate H|].
  destruct (JsonAnswer.select_event (JsonAnswer.events db) event_id)
    as [e| |] eqn:S.
  2:{ assert (JsonAnswer.confirm_attendance event_id mail db
              = (JsonAnswer.HTTPException 404 JsonAnswer.not_found, db)) as E
          by (unfold JsonAnswer.confirm_attendance; rewrite U, S;
              reflexivity).
      rewrite E. cbn [fst snd JsonAnswer.status_of].
      split; [intros H; discriminate H|intros H; exact H]. }
  2:{ assert (JsonAnswer.confirm_attendance event_id mail db
              = (JsonAnswer.overflow, db)) as E
          by (unfold JsonAnswer.confirm_attendance; rewrite U, S;
              reflexivity).
      rewrite E.
      cbn [fst snd JsonAnswer.status_of JsonAnswer.overflow].
      split; [intros H; discriminate H|intros H; exact H]. }
  destruct (JsonAnswer.has_rsvp (JsonAnswer.rsvps db) u event_id) eqn:R.
  - assert (JsonAnswer.confirm_attendance event_id mail db
            = (JsonAnswer.HTTPException 400
                 (py "Вы уже подтвердили участие в данном мероприятии."),
               db)) as E
        by (unfold JsonAnswer.confirm_attendance; rewrite U, S, R;
            reflexivity).
    rewrite E. cbn [fst snd JsonAnswer.status_of].
    split; [intros H; discriminate H|intros H; exact H].
  - assert (JsonAnswer.confirm_attendance event_id mail db
            = (JsonAnswer.Status 201 (py "Участие подтверждено успешно"),
               JsonAnswer.mkDb (JsonAnswer.events db)
                 (JsonAnswer.events_seq db) (JsonAnswer.users db)
                 (JsonAnswer.users_seq db)
                 (JsonAnswer.rsvps db ++ [(u, event_id)]))) as E
        by (unfold JsonAnswer.confirm_attendance; rewrite U, S, R;
            reflexivity).
    rewrite E. cbn [fst snd JsonAnswer.status_of JsonAnswer.rsvps].
    split.
    + intros _. unfold JsonAnswer.confirm_attendance.
      cbn [JsonAnswer.users JsonAnswer.events JsonAnswer.rsvps].
      rewrite U, S, has_rsvp_app_new. reflexivity.
    + intros Hnd. apply has_rsvp_false in R.
      apply NoDup_app; [assumption|repeat constructor; simpl; tauto|].
      intros x Hx [<-|[]]. contradiction.
Qed.
